(** * sdbus-c++ : the convenience API builders and the signature engine

    A shallow embedding of
      - [include/sdbus-c++/TypeTraits.h]: [signature_of], [function_traits],
        [future_return], the [std::array] concatenation operator;
      - [include/sdbus-c++/ConvenienceApiClasses.inl]: [SignalEmitter],
        [MethodInvoker], [AsyncMethodInvoker], [SignalSubscriber].

    C++ types are data ([cxx_type]); a [signature_of] specialisation is a
    clause of a structural recursion.  Code with side effects runs in the
    [Exec] monad: a state, and a completion that is normal, an exception in
    flight, or an abort from a failed [assert]. *)

From Stdlib Require SpecFloat.
From Stdlib Require Import ZArith Lia Ascii String.
From stdpp Require Import base numbers list.

Set Warnings "-register-all".
Local Open Scope list_scope.

(** ** TypeTraits.h *)

Module TypeTraits.

(** *** Concatenation of [std::array]s *)

Section ArrayConcat.
Context {T : Type}.

(** [for (auto& el : src) { result[index] = std::move(el); ++index; }] *)
Fixpoint copy_elements (src result : list T) (index : nat) : list T * nat :=
  match src with
  | [] => (result, index)
  | el :: rest => copy_elements rest (<[index := el]> result) (S index)
  end.

(** [operator+(std::array<_T,_N1> lhs, std::array<_T,_N2> rhs)]; [zero] is
    the value-initialised element of [result{}]. *)
Definition array_plus (zero : T) (lhs rhs : list T) : list T :=
  let result := replicate (length lhs + length rhs) zero in
  let index := 0%nat in
  let '(result, index) := copy_elements lhs result index in
  let '(result, index) := copy_elements rhs result index in
  result.

(** [(init + ... + pack)]: a binary left fold. *)
Definition fold_left_plus (zero : T) (init : list T) (pack : list (list T)) : list T :=
  fold_left (array_plus zero) pack init.

(** [(pack + ...)]: a unary right fold; the pack is [x], [xs] (the fold is
    ill-formed over an empty pack). *)
Fixpoint fold_right_plus (zero : T) (x : list T) (xs : list (list T)) : list T :=
  match xs with
  | [] => x
  | y :: ys => array_plus zero x (fold_right_plus zero y ys)
  end.

End ArrayConcat.

(** *** The supported native types *)

(** Integral types that have a [signature_of] specialisation: the possible
    [std::underlying_type_t] of a supported enumeration. *)
Inductive integral : Type :=
| IBool | IUint8 | IInt16 | IUint16 | IInt32 | IUint32 | IInt64 | IUint64.

(** The object types [signature_of] is specialised for.  Any other type
    selects the primary template, whose [static_assert] rejects the program. *)
Inductive cxx_type : Type :=
| TBool | TUint8 | TInt16 | TUint16 | TInt32 | TUint32 | TInt64 | TUint64
| TDouble
| TString | TStringView | TCharPtr | TConstCharPtr
| TCharArray (n : nat) | TConstCharArray (n : nat)
| TBusName | TInterfaceName | TMemberName
| TStruct (first : cxx_type) (others : list cxx_type)
| TVariant
| TStdVariant (elements : list cxx_type)
| TObjectPath | TSignature | TUnixFd
| TDictEntry (t1 t2 : cxx_type)
| TVector (element : cxx_type)
| TStdArray (element : cxx_type) (size : nat)
| TSpan (element : cxx_type) (extent : nat)
| TEnum (underlying : integral)
| TMap (key value : cxx_type)
| TUnorderedMap (key value : cxx_type)
| TTuple (types : list cxx_type)
| TConst (t : cxx_type)
| TVolatile (t : cxx_type)
| TConstVolatile (t : cxx_type)
| TRef (t : cxx_type).

(** [void], or an object type: a function's return type. *)
Inductive return_type : Type :=
| RVoid
| RType (t : cxx_type).

Definition underlying_type (u : integral) : cxx_type :=
  match u with
  | IBool => TBool | IUint8 => TUint8 | IInt16 => TInt16 | IUint16 => TUint16
  | IInt32 => TInt32 | IUint32 => TUint32 | IInt64 => TInt64 | IUint64 => TUint64
  end.

Definition signature := list ascii.

(** [operator+] on [std::array<char, _>]. *)
Definition plus : signature -> signature -> signature := array_plus Ascii.zero.

Infix "+++" := plus (at level 50, left associativity).

(** [signature_of<_T>::value] *)
Fixpoint signature_of (t : cxx_type) : signature :=
  match t with
  | TBool => ["b"%char]
  | TUint8 => ["y"%char]
  | TInt16 => ["n"%char]
  | TUint16 => ["q"%char]
  | TInt32 => ["i"%char]
  | TUint32 => ["u"%char]
  | TInt64 => ["x"%char]
  | TUint64 => ["t"%char]
  | TDouble => ["d"%char]
  | TString | TStringView | TCharPtr | TConstCharPtr
  | TCharArray _ | TConstCharArray _
  | TBusName | TInterfaceName | TMemberName => ["s"%char]
  | TStruct first others =>
      let contents :=
        fold_right_plus Ascii.zero (signature_of first) (List.map signature_of others) in
      ["("%char] +++ contents +++ [")"%char]
  | TVariant | TStdVariant _ => ["v"%char]
  | TObjectPath => ["o"%char]
  | TSignature => ["g"%char]
  | TUnixFd => ["h"%char]
  | TDictEntry t1 t2 =>
      (* signature_of_v<std::tuple<_T1, _T2>> *)
      let pair := fold_left_plus Ascii.zero [] [signature_of t1; signature_of t2] in
      ["{"%char] +++ pair +++ ["}"%char]
  | TVector element | TStdArray element _ | TSpan element _ =>
      ["a"%char] +++ signature_of element
  | TEnum IBool => ["b"%char]
  | TEnum IUint8 => ["y"%char]
  | TEnum IInt16 => ["n"%char]
  | TEnum IUint16 => ["q"%char]
  | TEnum IInt32 => ["i"%char]
  | TEnum IUint32 => ["u"%char]
  | TEnum IInt64 => ["x"%char]
  | TEnum IUint64 => ["t"%char]
  | TMap key value | TUnorderedMap key value =>
      (* 'a' + signature_of_v<DictEntry<_Key, _Value>> *)
      let pair := fold_left_plus Ascii.zero [] [signature_of key; signature_of value] in
      ["a"%char] +++ (["{"%char] +++ pair +++ ["}"%char])
  | TTuple types =>
      fold_left_plus Ascii.zero [] (List.map signature_of types)
  | TConst t | TVolatile t | TConstVolatile t | TRef t => signature_of t
  end.

(** [signature_of<_T>::is_valid] *)
Fixpoint is_valid (t : cxx_type) : bool :=
  match t with
  | TTuple _ => false
  | TConst t | TVolatile t | TConstVolatile t | TRef t => is_valid t
  | _ => true
  end.

(** [signature_of<_T>::is_trivial_dbus_type] *)
Fixpoint is_trivial_dbus_type (t : cxx_type) : bool :=
  match t with
  | TBool | TUint8 | TInt16 | TUint16 | TInt32 | TUint32 | TInt64 | TUint64
  | TDouble | TEnum _ => true
  | TConst t | TVolatile t | TConstVolatile t | TRef t => is_trivial_dbus_type t
  | _ => false
  end.

(** [signature_of<void>] *)
Definition signature_of_void : signature := [].
Definition is_valid_void : bool := true.

Definition signature_of_return (r : return_type) : signature :=
  match r with
  | RVoid => signature_of_void
  | RType t => signature_of t
  end.


(** [as_null_terminated(arr)] *)
Definition as_null_terminated (arr : signature) : signature :=
  arr +++ [Ascii.zero].

(** A [std::string] built from [signature.data()], a C string: the
    characters before the first NUL. *)
Fixpoint string_of_c_str (data : list ascii) : string :=
  match data with
  | [] => EmptyString
  | c :: rest =>
      if Ascii.eqb c Ascii.zero then EmptyString
      else String c (string_of_c_str rest)
  end.

(** *** [function_traits] *)

(** The function types the partial specialisations of [function_traits]
    tell apart.  Function pointers, member functions, [std::function] and
    callable objects all reduce to one of these. *)
Inductive function_type : Type :=
| Function (result : return_type) (args : list cxx_type)
    (* _ReturnType(_Args...) *)
| FunctionWithError (args : list cxx_type)
    (* void(std::optional<Error>, _Args...) *)
| FunctionWithResult (results args : list cxx_type).
    (* void(Result<_Results...>, _Args...), void(Result<_Results...>&&, _Args...) *)

(** [std::decay_t] on the supported types: the reference and the top-level
    cv-qualifiers go, an array becomes a pointer to its element. *)
Fixpoint decay (t : cxx_type) : cxx_type :=
  match t with
  | TRef t => decay t
  | TConst t | TVolatile t | TConstVolatile t => decay t
  | TCharArray _ => TCharPtr
  | TConstCharArray _ => TConstCharPtr
  | t => t
  end.

(** [function_traits<_F>::result_type] *)
Definition result_type (f : function_type) : return_type :=
  match f with
  | Function result _ => result
  | FunctionWithError _ => RVoid
  | FunctionWithResult results _ => RType (TTuple results)
  end.

(** The pack [_Args...] of [function_traits_base]. *)
Definition function_arguments (f : function_type) : list cxx_type :=
  match f with
  | Function _ args | FunctionWithError args | FunctionWithResult _ args => args
  end.

(** [function_traits<_F>::arguments_type] *)
Definition arguments_type (f : function_type) : cxx_type :=
  TTuple (function_arguments f).

(** [function_traits<_F>::decayed_arguments_type], which is
    [tuple_of_function_input_arg_types_t<_F>]. *)
Definition tuple_of_function_input_arg_types (f : function_type) : cxx_type :=
  TTuple (List.map decay (function_arguments f)).

(** [tuple_of_function_output_arg_types_t<_F>] *)
Definition tuple_of_function_output_arg_types (f : function_type) : return_type :=
  result_type f.

(** [function_traits<_F>::arity] *)
Definition arity (f : function_type) : nat := length (function_arguments f).

(** [has_error_param_v<_F>]; the member is not declared for the [Result]
    specialisations. *)
Definition has_error_param_v (f : function_type) : option bool :=
  match f with
  | Function _ _ => Some false
  | FunctionWithError _ => Some true
  | FunctionWithResult _ _ => None
  end.

(** [is_async_method_v<_F>]; the member is not declared for the
    [std::optional<Error>] specialisation. *)
Definition is_async_method_v (f : function_type) : option bool :=
  match f with
  | Function _ _ => Some false
  | FunctionWithError _ => None
  | FunctionWithResult _ _ => Some true
  end.

(** [signature_of_function_input_arguments<_F>::value] *)
Definition signature_of_function_input_arguments (f : function_type) : signature :=
  signature_of (tuple_of_function_input_arg_types f).

(** [signature_of_function_input_arguments<_F>::value_as_string()] *)
Definition signature_of_function_input_arguments_v (f : function_type) : string :=
  string_of_c_str (as_null_terminated (signature_of (tuple_of_function_input_arg_types f))).

(** [signature_of_function_output_arguments<_F>::value] *)
Definition signature_of_function_output_arguments (f : function_type) : signature :=
  signature_of_return (tuple_of_function_output_arg_types f).

(** [signature_of_function_output_arguments<_F>::value_as_string()] *)
Definition signature_of_function_output_arguments_v (f : function_type) : string :=
  string_of_c_str (as_null_terminated (signature_of_return (tuple_of_function_output_arg_types f))).

(** *** [future_return] *)

(** [future_return_t<_Args...>]: the specialisations for the empty pack and
    for a single type, then the primary template. *)
Definition future_return (args : list cxx_type) : return_type :=
  match args with
  | [] => RVoid
  | [type] => RType type
  | _ => RType (TTuple args)
  end.

(** [std::is_void_v] *)
Definition is_void (r : return_type) : bool :=
  match r with
  | RVoid => true
  | RType _ => false
  end.

(** *** Notions used to state properties *)

(** [std::remove_cvref_t] *)
Fixpoint remove_cvref (t : cxx_type) : cxx_type :=
  match t with
  | TConst t | TVolatile t | TConstVolatile t | TRef t => remove_cvref t
  | t => t
  end.

(** An argument list: a [std::tuple], as opposed to a leaf or container
    type of D-Bus. *)
Definition is_tuple (t : cxx_type) : bool :=
  match t with
  | TTuple _ => true
  | _ => false
  end.

End TypeTraits.

(** ** The execution model of the builders *)

Module Runtime.

(** [sdbus::Error]: a D-Bus error name and a message. *)
Record Error : Type := { getName : string; getMessage : string }.

(** What a throw-expression raises: an [sdbus::Error], or an exception of
    another class ([std::future_error], whatever a user callback throws). *)
Inductive exception : Type :=
| SdbusError (e : Error)
| OtherException (what : string).

(** How a call ends: it returns, it leaves by an exception, or the process
    is aborted ([assert], [std::terminate]). *)
Inductive completion (A : Type) : Type :=
| Normal (a : A)
| Thrown (x : exception)
| Aborted.

Arguments Normal {A} a.
Arguments Thrown {A} x.
Arguments Aborted {A}.

Definition Exec (St A : Type) : Type := St -> completion A * St.

(** How an expression statement ends whose last call ended with [r]: the
    value the call returned, if any, is dropped. *)
Definition discard {A : Type} (r : completion A) : completion unit :=
  match r with
  | Normal _ => Normal tt
  | Thrown x => Thrown x
  | Aborted => Aborted
  end.

Definition ret {St A : Type} (a : A) : Exec St A :=
  fun s => (Normal a, s).

Definition bind {St A B : Type} (m : Exec St A) (k : A -> Exec St B) : Exec St B :=
  fun s =>
    match m s with
    | (Normal a, s') => k a s'
    | (Thrown x, s') => (Thrown x, s')
    | (Aborted, s') => (Aborted, s')
    end.

Definition throw {St A : Type} (x : exception) : Exec St A :=
  fun s => (Thrown x, s).

Definition std_abort {St A : Type} : Exec St A :=
  fun s => (Aborted, s).

Definition gets {St A : Type} (f : St -> A) : Exec St A :=
  fun s => (Normal (f s), s).

Definition modify {St : Type} (f : St -> St) : Exec St unit :=
  fun s => (Normal tt, f s).

(** [try { body } catch (const Error& e) { handler }]: only an
    [sdbus::Error] is caught; the state the body reached is the state the
    handler starts from. *)
Definition try_catch {St A : Type} (body : Exec St A) (handler : Error -> Exec St A)
  : Exec St A :=
  fun s =>
    match body s with
    | (Thrown (SdbusError e), s') => handler e s'
    | r => r
    end.

(** A block with one local variable, initialised to [init]. *)
Definition with_local {L St A : Type} (init : L) (body : Exec (L * St) A) : Exec St A :=
  fun s => let '(r, (_, s')) := body (init, s) in (r, s').

Declare Scope exec_scope.
Delimit Scope exec_scope with exec.
Notation "x <- m ;; k" := (bind m (fun x => k))
  (at level 100, m at next level, right associativity) : exec_scope.
Notation "m ;; k" := (bind m (fun _ => k))
  (at level 100, right associativity) : exec_scope.

(** Whether the translation unit is compiled with [NDEBUG]. *)
Class Build : Type := { NDEBUG : bool }.

Definition debug : Build := {| NDEBUG := false |}.
Definition release : Build := {| NDEBUG := true |}.

(** [assert(expr)] from [<cassert>] *)
Definition assert `{build : Build} {St : Type} (expr : bool) : Exec St unit :=
  if NDEBUG then ret tt
  else if expr then ret tt else std_abort.

(** The part of [Message.h] the builders use.  [Message] stands for
    [MethodCall], [MethodReply] and [Signal]; [Values] for a pack or tuple
    of native values.  Serialization and deserialization take their target
    by reference and may throw an [Error] after they changed it: they
    return the target as they left it, and the error thrown if any. *)
Class MessageApi : Type := {
  Message : Type;
  Values : Type;
  (** the default-constructed message *)
  Message_default : Message;
  isValid : Message -> bool;
  (** [detail::serialize_pack(msg, args...)] *)
  serialize_pack : Message -> Values -> Message * option Error;
  (** [detail::deserialize_pack(msg, args...)], and [msg >> tuple] *)
  deserialize_pack : Message -> Values -> Values * option Error;
  (** [MethodCall::dontExpectReply()] *)
  Message_dontExpectReply : Message -> Message;
  (** a default-initialised [std::tuple] of the given element types *)
  default_tuple : list TypeTraits.cxx_type -> Values;
}.

(** [IObject], as far as [SignalEmitter] calls it. *)
Class IObject `{messages : MessageApi} : Type := {
  Object : Type;
  createSignal : string -> string -> Exec Object Message;
  emitSignal : Message -> Exec Object unit;
}.

(** [IProxy], as far as the proxy-side builders call it.  The asynchronous
    [callMethod] and [registerSignalHandler] keep the handler they are given;
    their model returns once the registration is done. *)
Class IProxy `{messages : MessageApi} : Type := {
  Proxy : Type;
  createMethodCall : string -> string -> Exec Proxy Message;
  callMethod : Message -> Z -> Exec Proxy Message;
  callMethodAsync : Message -> Z -> Exec Proxy unit;
  registerSignalHandler : string -> string -> Exec Proxy unit;
}.

(** What a builder sees of the program around it: the value of
    [std::uncaught_exceptions()], the object or proxy it refers to, and the
    calls made on that object or proxy so far. *)
Record World (Peer Call : Type) : Type := {
  uncaught_exceptions : Z;
  peer : Peer;
  calls : list Call;
}.

Arguments uncaught_exceptions {Peer Call} w.
Arguments peer {Peer Call} w.
Arguments calls {Peer Call} w.

Section Builders.
Context {Peer Call B : Type}.

(** [std::uncaught_exceptions()] *)
Definition std_uncaught_exceptions : Exec (World Peer Call * B) Z :=
  gets (fun s => uncaught_exceptions (fst s)).

(** [*this] *)
Definition this : Exec (World Peer Call * B) B :=
  gets snd.

Definition set_this (f : B -> B) : Exec (World Peer Call * B) unit :=
  modify (fun s => (fst s, f (snd s))).

(** A call [c] on the peer, with the peer's behaviour [op]. *)
Definition call_peer {A : Type} (c : Call) (op : Exec Peer A) : Exec (World Peer Call * B) A :=
  fun s =>
    let w := fst s in
    let '(r, p) := op (peer w) in
    (r, ({| uncaught_exceptions := uncaught_exceptions w;
            peer := p;
            calls := calls w ++ [c] |}, snd s)).

(** A call on the peer that the model does not count. *)
Definition ask_peer {A : Type} (op : Exec Peer A) : Exec (World Peer Call * B) A :=
  fun s =>
    let w := fst s in
    let '(r, p) := op (peer w) in
    (r, ({| uncaught_exceptions := uncaught_exceptions w;
            peer := p;
            calls := calls w |}, snd s)).

Definition with_uncaught (n : Z) (w : World Peer Call) : World Peer Call :=
  {| uncaught_exceptions := n; peer := peer w; calls := calls w |}.

(** The steps of a call chain, in order; the first exception ends it. *)
Fixpoint chain (steps : list (Exec (World Peer Call * B) unit))
  : Exec (World Peer Call * B) unit :=
  match steps with
  | [] => ret tt
  | step :: rest => bind step (fun _ => chain rest)
  end.

(** The statement [factory(name).step1(...).step2(...);].  The builder is a
    temporary: it is destroyed when the full expression ends, or, when a
    step throws, during stack unwinding, with that exception counted by
    [std::uncaught_exceptions()].  A destructor that throws during unwinding
    ends the program. *)
Definition statement
    (ctor : World Peer Call -> B)
    (steps : list (Exec (World Peer Call * B) unit))
    (dtor : Exec (World Peer Call * B) unit) : Exec (World Peer Call) unit :=
  fun w =>
    match chain steps (w, ctor w) with
    | (Normal _, s) => let '(r, s') := dtor s in (r, fst s')
    | (Thrown x, s) =>
        let n := uncaught_exceptions (fst s) in
        match dtor (with_uncaught (n + 1) (fst s), snd s) with
        | (Normal _, s') => (Thrown x, with_uncaught n (fst s'))
        | (_, s') => (Aborted, fst s')
        end
    | (Aborted, s) => (Aborted, fst s)
    end.

End Builders.

End Runtime.

(** ** [std::chrono] durations *)

Module chrono.

Local Open Scope Z_scope.

(** The integer types a duration can have as its representation [_Rep]. *)
Inductive integer_type : Type :=
| int8_t | int16_t | int32_t | int64_t
| uint8_t | uint16_t | uint32_t | uint64_t.

(** [std::chrono::duration<_Rep, _Period>] with an integer [_Rep] and
    [_Period = std::ratio<period_num, period_den>]; [count] is the value the
    representation holds. *)
Record duration : Type := {
  rep : integer_type;
  count : Z;
  period_num : positive;
  period_den : positive;
}.

Definition static_cast_int64 (z : Z) : Z :=
  (z + 2 ^ 63) mod 2 ^ 64 - 2 ^ 63.

Definition static_cast_uint64 (z : Z) : Z :=
  z mod 2 ^ 64.

Definition in_int64 (z : Z) : Prop :=
  - 2 ^ 63 <= z < 2 ^ 63.

(** [std::ratio_divide<std::ratio<num, den>, std::micro>], in lowest
    terms. *)
Definition ratio_divide_micro (period_num period_den : positive) : Z * Z :=
  let num := Z.pos period_num * 1000000 in
  let den := Z.pos period_den * 1 in
  let g := Z.gcd num den in
  (num / g, den / g).

(** The conversion factor [CF] of [duration_cast] to microseconds. *)
Definition CF (d : duration) : Z * Z :=
  ratio_divide_micro (period_num d) (period_den d).

(** Whether the common representation
    [CR = std::common_type_t<int64_t, _Rep, intmax_t>] of [duration_cast] is
    unsigned: it is [uint64_t] for a 64-bit unsigned [_Rep], and [int64_t]
    for every other integer type. *)
Definition CR_is_unsigned (r : integer_type) : bool :=
  match r with
  | uint64_t => true
  | _ => false
  end.

(** [std::chrono::duration_cast<std::chrono::microseconds>(d).count()],
    whose four cases are those of the C++ standard.  With [CR = int64_t] a
    product that leaves the range is undefined behaviour, which the model
    computes unbounded; with [CR = uint64_t] the arithmetic is modulo 2^64
    and the result converts to the signed [int64_t] of the microseconds.
    The constants [CF::num] and [CF::den] are positive values of [intmax_t],
    which convert to [CR] unchanged. *)
Definition duration_cast_microseconds (d : duration) : Z :=
  let '(num, den) := CF d in
  if CR_is_unsigned (rep d) then
    let c := static_cast_uint64 (count d) in
    if (num =? 1) && (den =? 1) then static_cast_int64 (count d)
    else if den =? 1 then static_cast_int64 (static_cast_uint64 (c * num))
    else if num =? 1 then static_cast_int64 (c / den)
    else static_cast_int64 (static_cast_uint64 (c * num) / den)
  else
    if (num =? 1) && (den =? 1) then static_cast_int64 (count d)
    else if den =? 1 then static_cast_int64 (count d * num)
    else if num =? 1 then static_cast_int64 (count d ÷ den)
    else static_cast_int64 (count d * num ÷ den).

(** The duration in microseconds as a rational, truncated toward zero. *)
Definition whole_microseconds (d : duration) : Z :=
  (count d * (Z.pos (period_num d) * 1000000)) ÷ Z.pos (period_den d).

(** The conversion of [d] stays within its 64-bit intermediate: the count
    times the conversion factor is a value of [CR]. *)
Definition conversion_fits (d : duration) : Prop :=
  if CR_is_unsigned (rep d) then 0 <= count d /\ count d * fst (CF d) < 2 ^ 64
  else in_int64 (count d * fst (CF d)).

(** *** Floating-point representations *)

(** A binary floating-point format of IEEE 754: [float] has 24 digits of
    precision, [double] 53. *)
Record floating_type : Type := {
  prec : Z;
  emax : Z;
}.

Definition float_t : floating_type := {| prec := 24; emax := 128 |}.

(** [std::chrono::duration<_Rep, _Period>] with a floating-point [_Rep]:
    the count is a value of the format. *)
Record floating_duration : Type := {
  frep : floating_type;
  fcount : SpecFloat.spec_float;
  fperiod_num : positive;
  fperiod_den : positive;
}.

(** [static_cast<_Rep>(n)] of an integer [n]: the value of the format that
    is nearest to [n]. *)
Definition static_cast_floating (f : floating_type) (n : Z) : SpecFloat.spec_float :=
  SpecFloat.binary_normalize (prec f) (emax f) n 0 false.

(** [static_cast<int64_t>(x)] of a floating-point [x]: [x] truncated toward
    zero.  The behaviour is undefined, [None], when that is not a value of
    [int64_t], and for an infinity or a NaN. *)
Definition static_cast_int64_of_floating (x : SpecFloat.spec_float) : option Z :=
  match x with
  | SpecFloat.S754_zero _ => Some 0
  | SpecFloat.S754_finite s m e =>
      let magnitude := if 0 <=? e then Z.pos m * 2 ^ e else Z.pos m / 2 ^ (- e) in
      let z := if s then - magnitude else magnitude in
      if (- 2 ^ 63 <=? z) && (z <? 2 ^ 63) then Some z else None
  | _ => None
  end.

(** [duration_cast<microseconds>(d).count()] for a floating-point [_Rep],
    which is then the common representation [CR]: the product and the
    quotient are those of the format, rounded to nearest. *)
Definition floating_duration_cast_microseconds (d : floating_duration) : option Z :=
  let '(num, den) := ratio_divide_micro (fperiod_num d) (fperiod_den d) in
  let f := frep d in
  let mul := SpecFloat.SFmul (prec f) (emax f) in
  let div := SpecFloat.SFdiv (prec f) (emax f) in
  static_cast_int64_of_floating
    (if (num =? 1) && (den =? 1) then fcount d
     else if den =? 1 then mul (fcount d) (static_cast_floating f num)
     else if num =? 1 then div (fcount d) (static_cast_floating f den)
     else div (mul (fcount d) (static_cast_floating f num)) (static_cast_floating f den)).


End chrono.

(** ** ConvenienceApiClasses.inl *)

Module Api.
Import TypeTraits Runtime.
Local Open Scope exec_scope.

(** The class declarations (ConvenienceApiClasses.h) are not among the
    sources.  A data member that the initialiser list of a constructor
    leaves out takes the default member initialiser of its declaration: the
    value [timeout_] of a [MethodInvoker] or [AsyncMethodInvoker] starts
    with is a parameter. *)
Class Declarations : Type := {
  timeout_default : Z;
}.

(** Modelled from the spec: the declaration of [methodCalled_] is missing
    likewise; a builder that was just created has not committed its call. *)
Definition methodCalled_default : bool := false.

(** *** SignalEmitter *)

Module SignalEmitter.

(** The world of a [SignalEmitter]: the calls counted are those of
    [IObject::emitSignal]. *)
Abbreviation world := (World Object Message) (only parsing).

Section SignalEmitter.
Context `{build : Build} `{messages : MessageApi} `{object : !IObject}.

Record t : Type := {
  signalName_ : string;
  signal_ : Message;
  exceptions_ : Z;
}.

Definition ctor (signalName : string) (w : world) : t :=
  {| signalName_ := signalName;
     signal_ := Message_default;
     exceptions_ := uncaught_exceptions w |}.

Definition dtor : Exec (world * t) unit :=
  self <- this ;;
  n <- std_uncaught_exceptions ;;
  if negb (n =? exceptions_ self)%Z then ret tt
  else call_peer (signal_ self) (emitSignal (signal_ self)).

Definition onInterface (interfaceName : string) : Exec (world * t) unit :=
  self <- this ;;
  signal <- ask_peer (createSignal interfaceName (signalName_ self)) ;;
  set_this (fun self =>
    {| signalName_ := signalName_ self;
       signal_ := signal;
       exceptions_ := exceptions_ self |}).

Definition withArguments (args : Values) : Exec (world * t) unit :=
  self <- this ;;
  assert (isValid (signal_ self)) ;;
  let '(signal, error) := serialize_pack (signal_ self) args in
  set_this (fun self =>
    {| signalName_ := signalName_ self;
       signal_ := signal;
       exceptions_ := exceptions_ self |}) ;;
  match error with
  | Some e => throw (SdbusError e)
  | None => ret tt
  end.

Inductive step : Type :=
| OnInterface (interfaceName : string)
| WithArguments (args : Values).

Definition run (s : step) : Exec (world * t) unit :=
  match s with
  | OnInterface interfaceName => onInterface interfaceName
  | WithArguments args => withArguments args
  end.

(** The statement [object.emitSignal(signalName).steps...;] *)
Definition emit_statement (signalName : string) (steps : list step) : Exec world unit :=
  statement (ctor signalName) (List.map run steps) dtor.

End SignalEmitter.
End SignalEmitter.

(** *** MethodInvoker *)

Module MethodInvoker.

(** The world of a [MethodInvoker]: the calls counted are those of the
    synchronous [IProxy::callMethod]. *)
Abbreviation world := (World Proxy (Message * Z)%type) (only parsing).

Section MethodInvoker.
Context `{build : Build} `{messages : MessageApi}
        `{proxy : !IProxy} `{declarations : Declarations}.

Record t : Type := {
  methodName_ : string;
  method_ : Message;
  timeout_ : Z;
  methodCalled_ : bool;
  exceptions_ : Z;
}.

Definition ctor (methodName : string) (w : world) : t :=
  {| methodName_ := methodName;
     method_ := Message_default;
     timeout_ := timeout_default;
     methodCalled_ := methodCalled_default;
     exceptions_ := uncaught_exceptions w |}.

Definition set_method_ (method : Message) (self : t) : t :=
  {| methodName_ := methodName_ self;
     method_ := method;
     timeout_ := timeout_ self;
     methodCalled_ := methodCalled_ self;
     exceptions_ := exceptions_ self |}.

Definition set_timeout_ (usec : Z) (self : t) : t :=
  {| methodName_ := methodName_ self;
     method_ := method_ self;
     timeout_ := usec;
     methodCalled_ := methodCalled_ self;
     exceptions_ := exceptions_ self |}.

Definition set_methodCalled_ (b : bool) (self : t) : t :=
  {| methodName_ := methodName_ self;
     method_ := method_ self;
     timeout_ := timeout_ self;
     methodCalled_ := b;
     exceptions_ := exceptions_ self |}.

Definition dtor : Exec (world * t) unit :=
  self <- this ;;
  n <- std_uncaught_exceptions ;;
  if methodCalled_ self || negb (n =? exceptions_ self)%Z then ret tt
  else
    _ <- call_peer (method_ self, timeout_ self)
           (callMethod (method_ self) (timeout_ self)) ;;
    ret tt.

Definition onInterface (interfaceName : string) : Exec (world * t) unit :=
  self <- this ;;
  method <- ask_peer (createMethodCall interfaceName (methodName_ self)) ;;
  set_this (set_method_ method).

(** [withTimeout(uint64_t usec)] *)
Definition withTimeout (usec : Z) : Exec (world * t) unit :=
  set_this (set_timeout_ usec).

(** [withTimeout(const std::chrono::duration<_Rep, _Period>& timeout)] for
    an integer [_Rep]: the signed count of the microseconds converts to the
    [uint64_t] parameter. *)
Definition withTimeout_duration (timeout : chrono.duration) : Exec (world * t) unit :=
  let microsecs := chrono.duration_cast_microseconds timeout in
  withTimeout (chrono.static_cast_uint64 microsecs).

(** The same template for a duration with a floating-point [_Rep]; [None]
    where the conversion has no defined behaviour. *)
Definition withTimeout_floating_duration (timeout : chrono.floating_duration)
  : option (Exec (world * t) unit) :=
  match chrono.floating_duration_cast_microseconds timeout with
  | Some microsecs => Some (withTimeout (chrono.static_cast_uint64 microsecs))
  | None => None
  end.

Definition withArguments (args : Values) : Exec (world * t) unit :=
  self <- this ;;
  assert (isValid (method_ self)) ;;
  let '(method, error) := serialize_pack (method_ self) args in
  set_this (set_method_ method) ;;
  match error with
  | Some e => throw (SdbusError e)
  | None => ret tt
  end.

(** [storeResultsTo(_Args&... args)]: [outs] holds the caller's variables,
    the result is what they hold when the call returns. *)
Definition storeResultsTo (outs : Values) : Exec (world * t) Values :=
  self <- this ;;
  assert (isValid (method_ self)) ;;
  reply <- call_peer (method_ self, timeout_ self)
             (callMethod (method_ self) (timeout_ self)) ;;
  set_this (set_methodCalled_ true) ;;
  let '(outs, error) := deserialize_pack reply outs in
  match error with
  | Some e => throw (SdbusError e)
  | None => ret outs
  end.

Definition dontExpectReply : Exec (world * t) unit :=
  self <- this ;;
  assert (isValid (method_ self)) ;;
  set_this (set_method_ (Message_dontExpectReply (method_ self))).

(** The member functions a call chain is made of. *)
Inductive step : Type :=
| OnInterface (interfaceName : string)
| WithTimeout (usec : Z)
| WithTimeoutDuration (timeout : chrono.duration)
| WithArguments (args : Values)
| StoreResultsTo (outs : Values)
| DontExpectReply.

Definition run (s : step) : Exec (world * t) unit :=
  match s with
  | OnInterface interfaceName => onInterface interfaceName
  | WithTimeout usec => withTimeout usec
  | WithTimeoutDuration timeout => withTimeout_duration timeout
  | WithArguments args => withArguments args
  | StoreResultsTo outs => _ <- storeResultsTo outs ;; ret tt
  | DontExpectReply => dontExpectReply
  end.

(** A member function that returns [*this] can be followed by another. *)
Definition returns_this (s : step) : bool :=
  match s with
  | StoreResultsTo _ | DontExpectReply => false
  | _ => true
  end.

(** A chain the compiler accepts: only its last call may return [void]. *)
Fixpoint well_chained (steps : list step) : bool :=
  match steps with
  | [] => true
  | [_] => true
  | s :: rest => returns_this s && well_chained rest
  end.

(** The statement [proxy.callMethod(methodName).steps...;] *)
Definition call_statement (methodName : string) (steps : list step) : Exec world unit :=
  statement (ctor methodName) (List.map run steps) dtor.

(** *** Notions used to state properties *)

(** What member functions may have done when they end with completion
    [r]: either no call and [methodCalled_] as before, or one call, after
    which [methodCalled_] is set unless they did not return. *)
Definition at_most_one_call {A : Type} (w : world) (self : t)
    (after : completion A * (world * t)) : Prop :=
  let '(r, (w', self')) := after in
  uncaught_exceptions w' = uncaught_exceptions w
  /\ exceptions_ self' = exceptions_ self
  /\ ((calls w' = calls w /\ methodCalled_ self' = methodCalled_ self)
      \/ ((exists c, calls w' = calls w ++ [c])
          /\ (methodCalled_ self' = true \/ forall a, r <> Normal a))).

Definition no_call (w : world) (self : t)
    (after : completion unit * (world * t)) : Prop :=
  let '(r, (w', self')) := after in
  uncaught_exceptions w' = uncaught_exceptions w
  /\ exceptions_ self' = exceptions_ self
  /\ calls w' = calls w
  /\ methodCalled_ self' = methodCalled_ self.

End MethodInvoker.
End MethodInvoker.

(** *** Reply and signal handlers *)

Section Handlers.
Context `{messages : MessageApi} {U : Type}.

(** One call of the user's callback, as the dispatch loop could observe it. *)
Inductive Invocation : Type :=
| Invoked (error : option Error) (args : Values)
| InvokedPure (args : Values).

(** The state a handler runs in: the user's own state, which the callback
    may change, and the calls of the callback so far. *)
Record Dispatch : Type := {
  user : U;
  invocations : list Invocation;
}.

(** A callback [_Function]: its parameter types after the optional leading
    error parameter, and its body.  The error parameter is [const Error*] in
    ConvenienceApiClasses.inl and [std::optional<Error>] in TypeTraits.h;
    both are an [option Error] here. *)
Inductive Callback : Type :=
| PureCallback (args : list cxx_type) (body : Values -> Exec U unit)
| ErrorCallback (args : list cxx_type) (body : option Error -> Values -> Exec U unit).

Definition callback_type (callback : Callback) : function_type :=
  match callback with
  | PureCallback args _ => Function RVoid args
  | ErrorCallback args _ => FunctionWithError args
  end.

(** [tuple_of_function_input_arg_types_t<_Function> args;] *)
Definition default_arguments (f : function_type) : Values :=
  default_tuple (List.map decay (function_arguments f)).

(** The contract the spec gives a typed read, whose code (Message.h) is
    not among the sources: a read that fails has stored nothing, its target
    holds what it held before. *)
Definition failed_read_stores_nothing : Prop :=
  forall (msg : Message) (targets : Values) (e : Error),
    snd (deserialize_pack msg targets) = Some e ->
    fst (deserialize_pack msg targets) = targets.

(** [msg >> args], on the local tuple [args]. *)
Definition read_tuple (msg : Message) : Exec (Values * Dispatch) unit :=
  fun s =>
    let '(args, error) := deserialize_pack msg (fst s) in
    match error with
    | Some e => (Thrown (SdbusError e), (args, snd s))
    | None => (Normal tt, (args, snd s))
    end.

(** [sdbus::apply(callback, error, args)] *)
Definition apply_with_error (body : option Error -> Values -> Exec U unit)
    (error : option Error) : Exec (Values * Dispatch) unit :=
  fun s =>
    let args := fst s in
    let '(r, u) := body error args (user (snd s)) in
    (r, (args, {| user := u;
                  invocations := invocations (snd s) ++ [Invoked error args] |})).

(** [sdbus::apply(callback, args)] *)
Definition apply_pure (body : Values -> Exec U unit) : Exec (Values * Dispatch) unit :=
  fun s =>
    let args := fst s in
    let '(r, u) := body args (user (snd s)) in
    (r, (args, {| user := u;
                  invocations := invocations (snd s) ++ [InvokedPure args] |})).

(** The lambda [asyncReplyHandler] of [AsyncMethodInvoker::uponReplyInvoke].
    [returned] tells that the catch block ran its [return]. *)
Definition asyncReplyHandler (args : list cxx_type)
    (callback : option Error -> Values -> Exec U unit)
    (reply : Message) (error : option Error) : Exec Dispatch unit :=
  with_local (default_arguments (FunctionWithError args))
    (returned <-
       match error with
       | None =>
           try_catch
             (read_tuple reply ;; ret false)
             (fun e => apply_with_error callback (Some e) ;; ret true)
       | Some _ => ret false
       end ;;
     if returned : bool then ret tt
     else apply_with_error callback error).

(** The lambda [SignalSubscriber::call] registers as signal handler; the
    match is its [if constexpr (has_error_param_v<_Function>)]. *)
Definition signalHandler (callback : Callback) (signal : Message) : Exec Dispatch unit :=
  with_local (default_arguments (callback_type callback))
    match callback with
    | ErrorCallback _ body =>
        returned <-
          try_catch
            (read_tuple signal ;; ret false)
            (fun e => apply_with_error body (Some e) ;; ret true) ;;
        if returned : bool then ret tt
        else apply_with_error body None
    | PureCallback _ body =>
        read_tuple signal ;;
        apply_pure body
    end.

End Handlers.

Arguments Dispatch {_} U.
Arguments Callback {_} U.

(** *** The promise behind [getResultAsFuture] *)

Section Promise.
Context `{messages : MessageApi}.

(** The shared state of a [std::promise] and its [std::future]: not ready,
    holding a value ([None] for [std::promise<void>]), or holding an
    exception. *)
Inductive shared_state : Type :=
| NotReady
| Ready (value : option Values)
| Failed (e : Error).

Definition future_error : exception :=
  OtherException "std::future_error: promise already satisfied".

Definition set_value (value : option Values) : Exec shared_state unit :=
  fun s =>
    match s with
    | NotReady => (Normal tt, Ready value)
    | _ => (Thrown future_error, s)
    end.

Definition set_exception (e : Error) : Exec shared_state unit :=
  fun s =>
    match s with
    | NotReady => (Normal tt, Failed e)
    | _ => (Thrown future_error, s)
    end.

(** The lambda [getResultAsFuture<_Args...>] passes to [uponReplyInvoke];
    [{std::move(args)...}] builds the promised value from the pack. *)
Definition promise_callback (Args : list cxx_type)
    (error : option Error) (args : Values) : Exec shared_state unit :=
  match error with
  | None =>
      if negb (is_void (future_return Args)) then set_value (Some args)
      else set_value None
  | Some e => set_exception e
  end.

End Promise.

(** *** AsyncMethodInvoker *)

Module AsyncMethodInvoker.

(** The world of an [AsyncMethodInvoker]: the calls counted are those of
    the asynchronous [IProxy::callMethod]. *)
Abbreviation world := (World Proxy (Message * Z)%type) (only parsing).

Section AsyncMethodInvoker.
Context `{build : Build} `{messages : MessageApi}
        `{proxy : !IProxy} `{declarations : Declarations}.

Record t : Type := {
  methodName_ : string;
  method_ : Message;
  timeout_ : Z;
}.

Definition ctor (methodName : string) (w : world) : t :=
  {| methodName_ := methodName;
     method_ := Message_default;
     timeout_ := timeout_default |}.

Definition set_method_ (method : Message) (self : t) : t :=
  {| methodName_ := methodName_ self;
     method_ := method;
     timeout_ := timeout_ self |}.

Definition set_timeout_ (usec : Z) (self : t) : t :=
  {| methodName_ := methodName_ self;
     method_ := method_ self;
     timeout_ := usec |}.

Definition onInterface (interfaceName : string) : Exec (world * t) unit :=
  self <- this ;;
  method <- ask_peer (createMethodCall interfaceName (methodName_ self)) ;;
  set_this (set_method_ method).

Definition withTimeout (usec : Z) : Exec (world * t) unit :=
  set_this (set_timeout_ usec).

Definition withTimeout_duration (timeout : chrono.duration) : Exec (world * t) unit :=
  let microsecs := chrono.duration_cast_microseconds timeout in
  withTimeout (chrono.static_cast_uint64 microsecs).

(** The same template for a duration with a floating-point [_Rep]; [None]
    where the conversion has no defined behaviour. *)
Definition withTimeout_floating_duration (timeout : chrono.floating_duration)
  : option (Exec (world * t) unit) :=
  match chrono.floating_duration_cast_microseconds timeout with
  | Some microsecs => Some (withTimeout (chrono.static_cast_uint64 microsecs))
  | None => None
  end.

Definition withArguments (args : Values) : Exec (world * t) unit :=
  self <- this ;;
  assert (isValid (method_ self)) ;;
  let '(method, error) := serialize_pack (method_ self) args in
  set_this (set_method_ method) ;;
  match error with
  | Some e => throw (SdbusError e)
  | None => ret tt
  end.

(** [uponReplyInvoke(callback)]: the result is the reply handler it hands
    to the proxy. *)
Definition uponReplyInvoke {U : Type} (args : list cxx_type)
    (callback : option Error -> Values -> Exec U unit)
  : Exec (world * t) (Message -> option Error -> Exec (Dispatch U) unit) :=
  self <- this ;;
  assert (isValid (method_ self)) ;;
  call_peer (method_ self, timeout_ self)
    (callMethodAsync (method_ self) (timeout_ self)) ;;
  ret (asyncReplyHandler args callback).

(** [getResultAsFuture<_Args...>()]: the value type of the future it
    returns, and the reply handler that completes the promise. *)
Definition getResultAsFuture (Args : list cxx_type)
  : Exec (world * t)
      (return_type * (Message -> option Error -> Exec (Dispatch shared_state) unit)) :=
  handler <- uponReplyInvoke Args (promise_callback Args) ;;
  ret (future_return Args, handler).

End AsyncMethodInvoker.
End AsyncMethodInvoker.

(** *** SignalSubscriber *)

Module SignalSubscriber.

(** The world of a [SignalSubscriber]: the calls counted are those of
    [IProxy::registerSignalHandler]. *)
Abbreviation world := (World Proxy (string * string)%type) (only parsing).

Section SignalSubscriber.
Context `{build : Build} `{messages : MessageApi}
        `{proxy : !IProxy} `{declarations : Declarations}.

Record t : Type := {
  signalName_ : string;
  interfaceName_ : string;
}.

Definition ctor (signalName : string) (w : world) : t :=
  {| signalName_ := signalName; interfaceName_ := EmptyString |}.

(** [std::string::empty()] *)
Definition empty (s : string) : bool :=
  match s with
  | EmptyString => true
  | String _ _ => false
  end.

Definition onInterface (interfaceName : string) : Exec (world * t) unit :=
  set_this (fun self =>
    {| signalName_ := signalName_ self; interfaceName_ := interfaceName |}).

(** [call(callback)]: the result is the signal handler it registers. *)
Definition call {U : Type} (callback : Callback U)
  : Exec (world * t) (Message -> Exec (Dispatch U) unit) :=
  self <- this ;;
  assert (negb (empty (interfaceName_ self))) ;;
  call_peer (interfaceName_ self, signalName_ self)
    (registerSignalHandler (interfaceName_ self) (signalName_ self)) ;;
  ret (signalHandler callback).

End SignalSubscriber.
End SignalSubscriber.

End Api.

(** ** A small instance of the interfaces

    Message.h and the implementations of [IObject] and [IProxy] are not
    among the sources.  The instance below follows the data model of the
    spec over two value types; it is used to run the builders and handlers
    on concrete inputs. *)

Module Model.
Import TypeTraits Runtime.

(** Modelled from the spec: the native values of a payload, here 32-bit
    integers and strings only. *)
Inductive value : Type :=
| VInt32 (i : Z)
| VString (s : string).

(** Modelled from the spec: Message.h is not among the sources.  A message
    has the optional header fields interface, member and no-reply flag, and
    a payload; a default-constructed message is not valid, a created one
    is. *)
Record message : Type := {
  valid : bool;
  interface : string;
  member : string;
  payload : list value;
  no_reply : bool;
}.

Definition invalid_message : message :=
  {| valid := false; interface := ""; member := ""; payload := []; no_reply := false |}.

Definition create (interfaceName memberName : string) : message :=
  {| valid := true; interface := interfaceName; member := memberName;
     payload := []; no_reply := false |}.

Definition same_type (a b : value) : bool :=
  match a, b with
  | VInt32 _, VInt32 _ | VString _, VString _ => true
  | _, _ => false
  end.

Definition deserialization_failure : Error :=
  {| getName := "org.sdbuscpp.Error"; getMessage := "Failed to deserialize a value" |}.

Definition invalid_message_error : Error :=
  {| getName := "org.sdbuscpp.Error"; getMessage := "Invalid message" |}.

(** Modelled from the spec: the typed read of Message.h, which is not
    among the sources.  Reads consume the payload in order, each
    [read<T>() -> T] giving a value or failing, on a type mismatch at the
    cursor or at a premature end. *)
Fixpoint read_payload (data targets : list value) : option (list value) :=
  match targets with
  | [] => Some []
  | target :: rest =>
      match data with
      | [] => None
      | v :: data' =>
          if same_type v target then
            match read_payload data' rest with
            | Some values => Some (v :: values)
            | None => None
            end
          else None
      end
  end.

(** Modelled from the spec: a read into a tuple that fails gives no value,
    and the tuple keeps what it held (a handler then has the error and the
    default-initialised argument tuple). *)
Definition read_values (data targets : list value) : list value * option Error :=
  match read_payload data targets with
  | Some values => (values, None)
  | None => (targets, Some deserialization_failure)
  end.

(** Modelled from the spec: the typed append of Message.h; writes append
    to the payload in order, and fail on a message that is not valid. *)
Definition append (m : message) (args : list value) : message * option Error :=
  if valid m then
    ({| valid := true; interface := interface m; member := member m;
        payload := payload m ++ args; no_reply := no_reply m |}, None)
  else (m, Some invalid_message_error).

(** Modelled from the spec: [set_no_reply()] sets the no-reply header
    flag. *)
Definition set_no_reply (m : message) : message :=
  {| valid := valid m; interface := interface m; member := member m;
     payload := payload m; no_reply := true |}.

(** A value-initialised object of type [t], within the two value types. *)
Definition default_value (t : cxx_type) : value :=
  match decay t with
  | TString | TStringView | TCharPtr | TConstCharPtr
  | TBusName | TInterfaceName | TMemberName => VString ""
  | _ => VInt32 0
  end.

#[export] Instance messages : MessageApi := {|
  Message := message;
  Values := list value;
  Message_default := invalid_message;
  isValid := valid;
  serialize_pack := append;
  deserialize_pack := fun m targets => read_values (payload m) targets;
  Message_dontExpectReply := set_no_reply;
  default_tuple := List.map default_value;
|}.

(** Modelled from the spec: an [IObject] (its implementation is not among
    the sources) whose connection keeps the signals it sent; [emit_signal] fails on
    a malformed message. *)
#[export] Instance object : IObject := {|
  Object := list message;
  createSignal := fun interfaceName signalName => ret (create interfaceName signalName);
  emitSignal := fun signal sent =>
    if valid signal then (Normal tt, sent ++ [signal])
    else (Thrown (SdbusError invalid_message_error), sent);
|}.

(** Modelled from the spec: an [IProxy] (its implementation is not among
    the sources) of a remote object that replies to a call with the arguments of the
    call. *)
#[export] Instance proxy : IProxy := {|
  Proxy := unit;
  createMethodCall := fun interfaceName methodName => ret (create interfaceName methodName);
  callMethod := fun method timeout =>
    if valid method then ret method
    else throw (SdbusError invalid_message_error);
  callMethodAsync := fun method timeout =>
    if valid method then ret tt
    else throw (SdbusError invalid_message_error);
  registerSignalHandler := fun interfaceName signalName => ret tt;
|}.

(** In the instance a builder that was just created has the timeout 0. *)
#[export] Instance declarations : Api.Declarations :=
  {| Api.timeout_default := 0 |}.

Definition timeout_error : Error :=
  {| getName := "org.freedesktop.DBus.Error.Timeout"; getMessage := "Method call timed out" |}.

(** Modelled from the spec: an [IProxy] of a remote object that does not
    answer: every synchronous call fails with a timeout.  The proxy counts
    the calls it was asked to make. *)
Definition timing_out : @IProxy messages :=
  @Build_IProxy messages nat
    (fun interfaceName methodName => ret (create interfaceName methodName))
    (fun method timeout sent => (Thrown (SdbusError timeout_error), S sent))
    (fun method timeout => ret tt)
    (fun interfaceName signalName => ret tt).

Definition fresh {Peer Call : Type} (p : Peer) : World Peer Call :=
  {| uncaught_exceptions := 0; peer := p; calls := [] |}.

(** A message that arrives with the given payload. *)
Definition incoming (data : list value) : message :=
  {| valid := true; interface := "org.sdbuscpp.perftests"; member := "dataSignal";
     payload := data; no_reply := false |}.

(** A callback with an error parameter that keeps the arguments it got:
    the user state is the last argument tuple received. *)
Definition keep_arguments (error : option Error) (args : list value)
  : Exec (list value) unit :=
  modify (fun _ => args).

(** A callback without error parameter that keeps the arguments it got. *)
Definition keep_pure_arguments (args : list value) : Exec (list value) unit :=
  modify (fun _ => args).

End Model.

(** * The rest of the convenience API *)

(** ** The syntax of signatures *)

Module SignatureSyntax.





End SignatureSyntax.

(** ** More of ConvenienceApiClasses.inl, and the generated adaptor *)

Module ApiMore.
Import TypeTraits Runtime Api.
Local Open Scope exec_scope.

(** Packs of arguments written in the source as several expressions.  The
    classes of Message.h and Types.h that build them are not among the
    sources. *)
Class Packs `{messages : MessageApi} : Type := {
  (** the pack of one [std::string] *)
  of_string : string -> Values;
  (** the pack [a..., b...] *)
  pack_app : Values -> Values -> Values;
}.

Section Statements.
Context {Peer Call B A : Type}.

(** The statement [factory(name).step1(...)...last(...);] whose last call
    gives a result that is used once the statement is over: the temporary
    builder is destroyed as in [statement]. *)
Definition statement_returning
    (ctor : World Peer Call -> B)
    (steps : list (Exec (World Peer Call * B) unit))
    (last : Exec (World Peer Call * B) A)
    (dtor : Exec (World Peer Call * B) unit) : Exec (World Peer Call) A :=
  fun w =>
    match bind (chain steps) (fun _ => last) (w, ctor w) with
    | (Normal a, s) =>
        match dtor s with
        | (Normal _, s') => (Normal a, fst s')
        | (Thrown x, s') => (Thrown x, fst s')
        | (Aborted, s') => (Aborted, fst s')
        end
    | (Thrown x, s) =>
        let n := uncaught_exceptions (fst s) in
        match dtor (with_uncaught (n + 1) (fst s), snd s) with
        | (Normal _, s') => (Thrown x, with_uncaught n (fst s'))
        | (_, s') => (Aborted, fst s')
        end
    | (Aborted, s) => (Aborted, fst s)
    end.

End Statements.

(** *** The configuration steps of AsyncMethodInvoker *)

Module AsyncSteps.
Section AsyncSteps.
Context `{build : Build} `{messages : MessageApi}
        `{proxy : !IProxy} `{declarations : Declarations}.

(** The member functions of [AsyncMethodInvoker] that return [*this]. *)
Inductive step : Type :=
| OnInterface (interfaceName : string)
| WithTimeout (usec : Z)
| WithTimeoutDuration (timeout : chrono.duration)
| WithArguments (args : Values).

Definition run (s : step)
  : Exec (AsyncMethodInvoker.world * AsyncMethodInvoker.t) unit :=
  match s with
  | OnInterface interfaceName => AsyncMethodInvoker.onInterface interfaceName
  | WithTimeout usec => AsyncMethodInvoker.withTimeout usec
  | WithTimeoutDuration timeout => AsyncMethodInvoker.withTimeout_duration timeout
  | WithArguments args => AsyncMethodInvoker.withArguments args
  end.

End AsyncSteps.
End AsyncSteps.

(** *** PropertyGetter *)

Module PropertyGetter.
Section PropertyGetter.
Context `{build : Build} `{messages : MessageApi}
        `{proxy : !IProxy} `{declarations : Declarations} `{packs : !Packs}.

Record t : Type := { propertyName_ : string }.

Definition ctor (propertyName : string) : t :=
  {| propertyName_ := propertyName |}.

(** [onInterface(interfaceName)]: the result is the [Variant] read from
    the reply, as a pack of one value. *)
Definition onInterface (interfaceName : string) (self : t)
  : Exec MethodInvoker.world Values :=
  let var := default_tuple [TVariant] in
  statement_returning (MethodInvoker.ctor "Get")
    [MethodInvoker.onInterface "org.freedesktop.DBus.Properties";
     MethodInvoker.withArguments
       (pack_app (of_string interfaceName) (of_string (propertyName_ self)))]
    (MethodInvoker.storeResultsTo var)
    MethodInvoker.dtor.

End PropertyGetter.
End PropertyGetter.

(** *** PropertySetter *)

Module PropertySetter.
Section PropertySetter.
Context `{build : Build} `{messages : MessageApi}
        `{proxy : !IProxy} `{declarations : Declarations} `{packs : !Packs}.

(** [interfaceName_] is a pointer to the caller's string: [None] is the
    null pointer, [Some name] a pointer to a string that holds [name] while
    the builder lives. *)
Record t : Type := {
  propertyName_ : string;
  interfaceName_ : option string;
}.

(** Modelled from the spec: the class declaration is not among the
    sources; a builder must have [onInterface] called before its other
    steps, so the pointer of a builder that was just created is null. *)
Definition ctor (propertyName : string) : t :=
  {| propertyName_ := propertyName; interfaceName_ := None |}.

Definition onInterface (interfaceName : string) (self : t) : t :=
  {| propertyName_ := propertyName_ self; interfaceName_ := Some interfaceName |}.

(** [toValue(const Variant& value)], [value] being a pack of one
    [Variant].  With a null [interfaceName_] the assertion aborts a debug
    build; a release build goes on to dereference the null pointer, which
    has no defined behaviour: [None]. *)
Definition toValue (value : Values) (self : t)
  : option (Exec MethodInvoker.world unit) :=
  match interfaceName_ self with
  | None => if NDEBUG then None else Some std_abort
  | Some interfaceName =>
      Some (MethodInvoker.call_statement "Set"
              [MethodInvoker.OnInterface "org.freedesktop.DBus.Properties";
               MethodInvoker.WithArguments
                 (pack_app (of_string interfaceName)
                    (pack_app (of_string (propertyName_ self)) value))])
  end.

(** [toValue(const Variant& value, dont_expect_reply_t)] *)
Definition toValue_dont_expect_reply (value : Values) (self : t)
  : option (Exec MethodInvoker.world unit) :=
  match interfaceName_ self with
  | None => if NDEBUG then None else Some std_abort
  | Some interfaceName =>
      Some (MethodInvoker.call_statement "Set"
              [MethodInvoker.OnInterface "org.freedesktop.DBus.Properties";
               MethodInvoker.WithArguments
                 (pack_app (of_string interfaceName)
                    (pack_app (of_string (propertyName_ self)) value));
               MethodInvoker.DontExpectReply])
  end.

End PropertySetter.
End PropertySetter.

(** *** AllPropertiesGetter *)

Module AllPropertiesGetter.
Section AllPropertiesGetter.
Context `{build : Build} `{messages : MessageApi}
        `{proxy : !IProxy} `{declarations : Declarations} `{packs : !Packs}.

(** [onInterface(interfaceName)]: the result is the
    [std::map<std::string, Variant>] read from the reply, as a pack of one
    value. *)
Definition onInterface (interfaceName : string) : Exec MethodInvoker.world Values :=
  let props := default_tuple [TMap TString TVariant] in
  statement_returning (MethodInvoker.ctor "GetAll")
    [MethodInvoker.onInterface "org.freedesktop.DBus.Properties";
     MethodInvoker.withArguments (of_string interfaceName)]
    (MethodInvoker.storeResultsTo props)
    MethodInvoker.dtor.

End AllPropertiesGetter.
End AllPropertiesGetter.

(** *** The asynchronous property accessors *)

Section Expressions.
Context {Peer Call B A : Type}.

(** The expression [factory(name).step1(...)...last(...)] on a builder
    that has no destructor of its own: its value is that of the last call. *)
Definition expression
    (ctor : World Peer Call -> B)
    (steps : list (Exec (World Peer Call * B) unit))
    (last : Exec (World Peer Call * B) A) : Exec (World Peer Call) A :=
  fun w =>
    let '(r, s) := bind (chain steps) (fun _ => last) (w, ctor w) in
    (r, fst s).

End Expressions.

Section PropertyCalls.
Context `{messages : MessageApi} `{proxy : !IProxy} `{declarations : Declarations}.


End PropertyCalls.

Module AsyncPropertyGetter.
Section AsyncPropertyGetter.
Context `{build : Build} `{messages : MessageApi}
        `{proxy : !IProxy} `{declarations : Declarations} `{packs : !Packs}.

(** [interfaceName_] is a pointer to the caller's string, as in
    [PropertySetter]. *)
Record t : Type := {
  propertyName_ : string;
  interfaceName_ : option string;
}.

(** Modelled from the spec: the class declaration is not among the
    sources; a builder must have [onInterface] called before its other
    steps, so the pointer of a builder that was just created is null. *)
Definition ctor (propertyName : string) : t :=
  {| propertyName_ := propertyName; interfaceName_ := None |}.

Definition onInterface (interfaceName : string) (self : t) : t :=
  {| propertyName_ := propertyName_ self; interfaceName_ := Some interfaceName |}.

Definition uponReplyInvoke {U : Type} (args : list cxx_type)
    (callback : option Error -> Values -> Exec U unit) (self : t)
  : option (Exec AsyncMethodInvoker.world
              (Message -> option Error -> Exec (Dispatch U) unit)) :=
  match interfaceName_ self with
  | None => if NDEBUG then None else Some std_abort
  | Some interfaceName =>
      Some (expression (AsyncMethodInvoker.ctor "Get")
              [AsyncMethodInvoker.onInterface "org.freedesktop.DBus.Properties";
               AsyncMethodInvoker.withArguments
                 (pack_app (of_string interfaceName) (of_string (propertyName_ self)))]
              (AsyncMethodInvoker.uponReplyInvoke args callback))
  end.

Definition getResultAsFuture (self : t)
  : option (Exec AsyncMethodInvoker.world
              (return_type * (Message -> option Error -> Exec (Dispatch shared_state) unit))) :=
  match interfaceName_ self with
  | None => if NDEBUG then None else Some std_abort
  | Some interfaceName =>
      Some (expression (AsyncMethodInvoker.ctor "Get")
              [AsyncMethodInvoker.onInterface "org.freedesktop.DBus.Properties";
               AsyncMethodInvoker.withArguments
                 (pack_app (of_string interfaceName) (of_string (propertyName_ self)))]
              (AsyncMethodInvoker.getResultAsFuture [TVariant]))
  end.

End AsyncPropertyGetter.
End AsyncPropertyGetter.

Module AsyncPropertySetter.
Section AsyncPropertySetter.
Context `{build : Build} `{messages : MessageApi}
        `{proxy : !IProxy} `{declarations : Declarations} `{packs : !Packs}.

(** [value_] is the [Variant] to set, as a pack of one value. *)
Record t : Type := {
  propertyName_ : string;
  interfaceName_ : option string;
  value_ : Values;
}.

(** Modelled from the spec: the class declaration is not among the
    sources; the pointer of a builder that was just created is null, as in
    [AsyncPropertyGetter], and its [Variant] is default-constructed. *)
Definition ctor (propertyName : string) : t :=
  {| propertyName_ := propertyName;
     interfaceName_ := None;
     value_ := default_tuple [TVariant] |}.

Definition onInterface (interfaceName : string) (self : t) : t :=
  {| propertyName_ := propertyName_ self;
     interfaceName_ := Some interfaceName;
     value_ := value_ self |}.

(** [toValue(Variant value)] *)
Definition toValue (value : Values) (self : t) : t :=
  {| propertyName_ := propertyName_ self;
     interfaceName_ := interfaceName_ self;
     value_ := value |}.

Definition uponReplyInvoke {U : Type} (args : list cxx_type)
    (callback : option Error -> Values -> Exec U unit) (self : t)
  : option (Exec AsyncMethodInvoker.world
              (Message -> option Error -> Exec (Dispatch U) unit)) :=
  match interfaceName_ self with
  | None => if NDEBUG then None else Some std_abort
  | Some interfaceName =>
      Some (expression (AsyncMethodInvoker.ctor "Set")
              [AsyncMethodInvoker.onInterface "org.freedesktop.DBus.Properties";
               AsyncMethodInvoker.withArguments
                 (pack_app (of_string interfaceName)
                    (pack_app (of_string (propertyName_ self)) (value_ self)))]
              (AsyncMethodInvoker.uponReplyInvoke args callback))
  end.

Definition getResultAsFuture (self : t)
  : option (Exec AsyncMethodInvoker.world
              (return_type * (Message -> option Error -> Exec (Dispatch shared_state) unit))) :=
  match interfaceName_ self with
  | None => if NDEBUG then None else Some std_abort
  | Some interfaceName =>
      Some (expression (AsyncMethodInvoker.ctor "Set")
              [AsyncMethodInvoker.onInterface "org.freedesktop.DBus.Properties";
               AsyncMethodInvoker.withArguments
                 (pack_app (of_string interfaceName)
                    (pack_app (of_string (propertyName_ self)) (value_ self)))]
              (AsyncMethodInvoker.getResultAsFuture []))
  end.

End AsyncPropertySetter.
End AsyncPropertySetter.

Module AsyncAllPropertiesGetter.
Section AsyncAllPropertiesGetter.
Context `{build : Build} `{messages : MessageApi}
        `{proxy : !IProxy} `{declarations : Declarations} `{packs : !Packs}.

Record t : Type := { interfaceName_ : option string }.

(** Modelled from the spec: the class declaration is not among the
    sources; the pointer of a builder that was just created is null, as in
    [AsyncPropertyGetter]. *)
Definition ctor : t := {| interfaceName_ := None |}.

Definition onInterface (interfaceName : string) (self : t) : t :=
  {| interfaceName_ := Some interfaceName |}.

Definition uponReplyInvoke {U : Type} (args : list cxx_type)
    (callback : option Error -> Values -> Exec U unit) (self : t)
  : option (Exec AsyncMethodInvoker.world
              (Message -> option Error -> Exec (Dispatch U) unit)) :=
  match interfaceName_ self with
  | None => if NDEBUG then None else Some std_abort
  | Some interfaceName =>
      Some (expression (AsyncMethodInvoker.ctor "GetAll")
              [AsyncMethodInvoker.onInterface "org.freedesktop.DBus.Properties";
               AsyncMethodInvoker.withArguments (of_string interfaceName)]
              (AsyncMethodInvoker.uponReplyInvoke args callback))
  end.

Definition getResultAsFuture (self : t)
  : option (Exec AsyncMethodInvoker.world
              (return_type * (Message -> option Error -> Exec (Dispatch shared_state) unit))) :=
  match interfaceName_ self with
  | None => if NDEBUG then None else Some std_abort
  | Some interfaceName =>
      Some (expression (AsyncMethodInvoker.ctor "GetAll")
              [AsyncMethodInvoker.onInterface "org.freedesktop.DBus.Properties";
               AsyncMethodInvoker.withArguments (of_string interfaceName)]
              (AsyncMethodInvoker.getResultAsFuture [TMap TString TVariant]))
  end.

End AsyncAllPropertiesGetter.
End AsyncAllPropertiesGetter.

(** *** The generated adaptor [org::sdbuscpp::perftests_adaptor] *)

Module perftests_adaptor.
Section perftests_adaptor.
Context `{build : Build} `{messages : MessageApi} `{object : !IObject} `{packs : !Packs}.

Definition INTERFACE_NAME : string := "org.sdbuscpp.perftests".

(** [emitDataSignal(const std::string& data)] *)
Definition emitDataSignal (data : string) : Exec SignalEmitter.world unit :=
  SignalEmitter.emit_statement "dataSignal"
    [SignalEmitter.OnInterface INTERFACE_NAME;
     SignalEmitter.WithArguments (of_string data)].

(** The parameter types of the lambdas the constructor registers as
    [sendDataSignals] and [concatenateTwoStrings]. *)
Definition sendDataSignals_type : function_type :=
  Function RVoid [TRef (TConst TUint32); TRef (TConst TUint32)].

Definition concatenateTwoStrings_type : function_type :=
  Function (RType TString) [TRef (TConst TString); TRef (TConst TString)].

End perftests_adaptor.
End perftests_adaptor.

(** The packs of the small instance. *)
#[export] Instance model_packs : @Packs Model.messages :=
  @Build_Packs Model.messages
    (fun s : string => [Model.VString s])
    (fun a b : list Model.value => a ++ b).

(** Modelled from the spec: an [IProxy] of a remote object that answers
    every call with the same reply. *)
Definition answering (reply : Model.message) : @IProxy Model.messages :=
  @Build_IProxy Model.messages unit
    (fun interfaceName methodName => ret (Model.create interfaceName methodName))
    (fun method timeout =>
       if Model.valid method then ret reply
       else throw (SdbusError Model.invalid_message_error))
    (fun method timeout =>
       if Model.valid method then ret tt
       else throw (SdbusError Model.invalid_message_error))
    (fun interfaceName signalName => ret tt).

End ApiMore.

(** * Properties *)

(** ** The signature engine *)

Module SignatureFacts.
Import TypeTraits.

Lemma copy_elements_app {T : Type} (src pre post : list T) :
  length src <= length post ->
  copy_elements src (pre ++ post) (length pre)
  = (pre ++ src ++ drop (length src) post, (length pre + length src)%nat).
Proof.
  revert pre post. induction src as [|el rest IH]; intros pre post Hlen; simpl.
  - rewrite drop_0, Nat.add_0_r. reflexivity.
  - destruct post as [|p post]; simpl in Hlen; [lia|].
    replace (<[length pre := el]> (pre ++ p :: post)) with ((pre ++ [el]) ++ post).
    + replace (S (length pre)) with (length (pre ++ [el]))
        by (rewrite length_app; simpl; lia).
      rewrite IH by lia.
      rewrite length_app, <- !app_assoc. simpl.
      f_equal. lia.
    + rewrite <- app_assoc. simpl.
      rewrite insert_app_r_alt by lia.
      rewrite Nat.sub_diag. reflexivity.
Qed.

(** [operator+] on arrays is list concatenation. *)
Lemma array_plus_app {T : Type} (zero : T) (lhs rhs : list T) :
  array_plus zero lhs rhs = lhs ++ rhs.
Proof.
  unfold array_plus.
  pose proof (copy_elements_app lhs [] (replicate (length lhs + length rhs) zero)) as H1.
  simpl in H1. rewrite H1 by (rewrite length_replicate; lia).
  rewrite drop_replicate.
  replace (length lhs + length rhs - length lhs)%nat with (length rhs) by lia.
  pose proof (copy_elements_app rhs lhs (replicate (length rhs) zero)) as H2.
  rewrite H2 by (rewrite length_replicate; lia).
  rewrite drop_replicate, Nat.sub_diag. simpl.
  rewrite app_nil_r. reflexivity.
Qed.

Lemma plus_app (a b : signature) : a +++ b = a ++ b.
Proof. apply array_plus_app. Qed.

Lemma fold_left_plus_concat {T : Type} (zero : T) (pack : list (list T)) (init : list T) :
  fold_left_plus zero init pack = init ++ concat pack.
Proof.
  unfold fold_left_plus. revert init.
  induction pack as [|x pack IH]; intros init; simpl.
  - rewrite app_nil_r. reflexivity.
  - rewrite IH, array_plus_app, <- app_assoc. reflexivity.
Qed.

Lemma fold_right_plus_concat {T : Type} (zero : T) (xs : list (list T)) (x : list T) :
  fold_right_plus zero x xs = x ++ concat xs.
Proof.
  revert x. induction xs as [|y ys IH]; intros x; simpl.
  - rewrite app_nil_r. reflexivity.
  - rewrite IH, array_plus_app. reflexivity.
Qed.

Lemma signature_of_tuple (types : list cxx_type) :
  signature_of (TTuple types) = concat (List.map signature_of types).
Proof. simpl. rewrite fold_left_plus_concat. reflexivity. Qed.

(** A struct, unlike a tuple, is parenthesised. *)
Lemma signature_of_struct (first : cxx_type) (others : list cxx_type) :
  signature_of (TStruct first others)
  = "("%char :: concat (List.map signature_of (first :: others)) ++ [")"%char].
Proof.
  simpl. rewrite !plus_app, fold_right_plus_concat. reflexivity.
Qed.

(** The clauses written out for the termination check are the
    specialisations of the source. *)
Lemma signature_of_dict_entry (t1 t2 : cxx_type) :
  signature_of (TDictEntry t1 t2)
  = ["{"%char] +++ signature_of (TTuple [t1; t2]) +++ ["}"%char].
Proof. reflexivity. Qed.

Lemma signature_of_std_map (key value : cxx_type) :
  signature_of (TMap key value) = ["a"%char] +++ signature_of (TDictEntry key value).
Proof. reflexivity. Qed.

Lemma signature_of_dict_entry_chars (t1 t2 : cxx_type) :
  signature_of (TDictEntry t1 t2)
  = "{"%char :: signature_of t1 ++ signature_of t2 ++ ["}"%char].
Proof.
  rewrite signature_of_dict_entry, signature_of_tuple, !plus_app.
  simpl. rewrite app_nil_r, <- app_assoc. reflexivity.
Qed.

Lemma signature_of_std_map_chars (key value : cxx_type) :
  signature_of (TMap key value)
  = "a"%char :: "{"%char :: signature_of key ++ signature_of value ++ ["}"%char].
Proof.
  rewrite signature_of_std_map, signature_of_dict_entry_chars, plus_app.
  reflexivity.
Qed.

Lemma signature_of_unordered_map (key value : cxx_type) :
  signature_of (TUnorderedMap key value) = signature_of (TMap key value).
Proof. reflexivity. Qed.

Lemma signature_of_vector (element : cxx_type) :
  signature_of (TVector element) = "a"%char :: signature_of element.
Proof. simpl. rewrite plus_app. reflexivity. Qed.

Lemma signature_of_enum (u : integral) :
  signature_of (TEnum u) = signature_of (underlying_type u)
  /\ is_valid (TEnum u) = is_valid (underlying_type u)
  /\ is_trivial_dbus_type (TEnum u) = is_trivial_dbus_type (underlying_type u).
Proof. destruct u; repeat split; reflexivity. Qed.

Lemma signature_of_remove_cvref (t : cxx_type) :
  signature_of (remove_cvref t) = signature_of t.
Proof. induction t; simpl; auto. Qed.

Lemma signature_of_decay (t : cxx_type) :
  signature_of (decay t) = signature_of t.
Proof. induction t; simpl; auto. Qed.

Lemma signature_of_decayed_pack (types : list cxx_type) :
  List.map signature_of (List.map decay types) = List.map signature_of types.
Proof.
  induction types as [|t types IH]; simpl; [reflexivity|].
  rewrite signature_of_decay, IH. reflexivity.
Qed.

(** No signature holds a NUL character. *)
Lemma signature_of_no_nul :
  forall t : cxx_type, Forall (fun c => c <> Ascii.zero) (signature_of t).
Proof.
  fix signature_of_no_nul 1. intros t.
  assert (Hpack : forall types : list cxx_type,
             (fix all (l : list cxx_type) : Prop :=
                match l with
                | [] => True
                | x :: l' => Forall (fun c => c <> Ascii.zero) (signature_of x) /\ all l'
                end) types ->
             Forall (fun c => c <> Ascii.zero) (concat (List.map signature_of types))).
  { induction types as [|x l IH]; simpl; intros Hall.
    - constructor.
    - destruct Hall as [Hx Hl]. apply Forall_app. split; [exact Hx | exact (IH Hl)]. }
  destruct t;
    try (simpl; repeat constructor; discriminate).
  - (* TStruct *)
    rewrite signature_of_struct.
    constructor; [discriminate|].
    apply Forall_app. split; [|repeat constructor; discriminate].
    simpl. apply Forall_app. split; [apply signature_of_no_nul|].
    apply Hpack.
    induction others as [|x l IH]; simpl; [exact I|].
    split; [apply signature_of_no_nul | exact IH].
  - (* TDictEntry *)
    rewrite signature_of_dict_entry_chars.
    constructor; [discriminate|].
    repeat (apply Forall_app; split); try apply signature_of_no_nul.
    repeat constructor; discriminate.
  - (* TVector *)
    rewrite signature_of_vector.
    constructor; [discriminate | apply signature_of_no_nul].
  - (* TStdArray *)
    change (signature_of (TStdArray t size)) with (signature_of (TVector t)).
    rewrite signature_of_vector.
    constructor; [discriminate | apply signature_of_no_nul].
  - (* TSpan *)
    change (signature_of (TSpan t extent)) with (signature_of (TVector t)).
    rewrite signature_of_vector.
    constructor; [discriminate | apply signature_of_no_nul].
  - (* TEnum *)
    destruct underlying; simpl; repeat constructor; discriminate.
  - (* TMap *)
    rewrite signature_of_std_map_chars.
    do 2 (constructor; [discriminate|]).
    repeat (apply Forall_app; split); try apply signature_of_no_nul.
    repeat constructor; discriminate.
  - (* TUnorderedMap *)
    rewrite signature_of_unordered_map, signature_of_std_map_chars.
    do 2 (constructor; [discriminate|]).
    repeat (apply Forall_app; split); try apply signature_of_no_nul.
    repeat constructor; discriminate.
  - (* TTuple *)
    rewrite signature_of_tuple. apply Hpack.
    induction types as [|x l IH]; simpl; [exact I|].
    split; [apply signature_of_no_nul | exact IH].
  - simpl. apply signature_of_no_nul.
  - simpl. apply signature_of_no_nul.
  - simpl. apply signature_of_no_nul.
  - simpl. apply signature_of_no_nul.
Qed.

Lemma string_of_c_str_null_terminated (sig : signature) :
  Forall (fun c => c <> Ascii.zero) sig ->
  string_of_c_str (as_null_terminated sig) = string_of_list_ascii sig.
Proof.
  unfold as_null_terminated. rewrite plus_app.
  induction 1 as [|c sig Hc _ IH]; simpl; [reflexivity|].
  destruct (Ascii.eqb c Ascii.zero) eqn:E.
  - apply Ascii.eqb_eq in E. contradiction.
  - rewrite IH. reflexivity.
Qed.

Lemma is_valid_remove_cvref (t : cxx_type) :
  is_valid t = negb (is_tuple (remove_cvref t)).
Proof. induction t; simpl; auto. Qed.

(** C5. The signature derived for an argument list, that is for
    [std::tuple<A1, ..., An>], is the concatenation of the signatures of
    [A1], ..., [An], with no parentheses around it, and is empty for the
    empty list.  This is the signature of the input arguments of every
    function type (as an array and as the string [value_as_string()]
    returns), and of its output arguments when they are a tuple or the
    results of a [Result]. *)
Theorem argument_list_signature_is_concatenation :
  (forall types : list cxx_type,
      signature_of (TTuple types) = concat (List.map signature_of types))
  /\ signature_of (TTuple []) = []
  /\ (forall f : function_type,
        signature_of_function_input_arguments f
        = concat (List.map signature_of (function_arguments f))
        /\ signature_of_function_input_arguments_v f
          = string_of_list_ascii (concat (List.map signature_of (function_arguments f))))
  /\ (forall (results args : list cxx_type),
        signature_of_function_output_arguments (FunctionWithResult results args)
        = concat (List.map signature_of results)
        /\ signature_of_function_output_arguments (Function (RType (TTuple results)) args)
          = concat (List.map signature_of results)).
Proof.
  split; [exact signature_of_tuple|].
  split; [reflexivity|].
  split.
  - intros f.
    assert (H : signature_of (tuple_of_function_input_arg_types f)
                = concat (List.map signature_of (function_arguments f))).
    { unfold tuple_of_function_input_arg_types.
      rewrite signature_of_tuple, signature_of_decayed_pack. reflexivity. }
    split; [exact H|].
    unfold signature_of_function_input_arguments_v.
    rewrite string_of_c_str_null_terminated by apply signature_of_no_nul.
    rewrite H. reflexivity.
  - intros results args.
    unfold signature_of_function_output_arguments; simpl result_type.
    split; apply signature_of_tuple.
Qed.

(** C6. The signature of [std::map<K, V>] is 'a', '{', the signature of
    [K], the signature of [V], '}'; that of
    [std::map<std::string, Variant>] is [a{sv}]; [std::unordered_map<K, V>]
    has the signature of [std::map<K, V>]. *)
Theorem map_signature_is_array_of_dict_entries :
  (forall key value : cxx_type,
      signature_of (TMap key value)
      = ["a"%char] ++ ["{"%char] ++ signature_of key ++ signature_of value ++ ["}"%char])
  /\ signature_of (TMap TString TVariant) = list_ascii_of_string "a{sv}"
  /\ (forall key value : cxx_type,
        signature_of (TUnorderedMap key value) = signature_of (TMap key value)).
Proof.
  split; [exact signature_of_std_map_chars|].
  split; [|exact signature_of_unordered_map].
  rewrite signature_of_std_map_chars. reflexivity.
Qed.

(** C9. [signature_of<std::tuple<T...>>::is_valid] is false, although its
    value is the concatenation of the element signatures; for every other
    supported type, and for [void], [is_valid] is true (a cv-qualified or
    reference type has the [is_valid] of the type it qualifies). *)
Theorem tuple_signature_is_not_valid :
  (forall types : list cxx_type,
      is_valid (TTuple types) = false
      /\ signature_of (TTuple types) = concat (List.map signature_of types))
  /\ (forall t : cxx_type, is_valid t = negb (is_tuple (remove_cvref t)))
  /\ is_valid_void = true.
Proof.
  split; [|split].
  - intros types. split; [reflexivity | apply signature_of_tuple].
  - exact is_valid_remove_cvref.
  - reflexivity.
Qed.

End SignatureFacts.

(** ** Proof steps for [Exec] *)

Module ExecTactics.
Import Runtime.

(** Unfolds the operations of [Exec] in the goal. *)
Ltac exec_unfold :=
  unfold std_uncaught_exceptions, this, set_this, call_peer, ask_peer,
    assert, with_local, try_catch, bind, ret, gets, modify, throw, std_abort in *;
  simpl in *.

Ltac exec_unfold_handlers :=
  unfold with_local, try_catch, bind, ret, gets, modify, throw, std_abort in *;
  simpl in *.

(** Case analysis on a scrutinee of the goal that holds no other match. *)
Ltac break_match :=
  match goal with
  | |- context [match ?x with _ => _ end] =>
      lazymatch x with
      | context [match _ with _ => _ end] => fail
      | _ => destruct x eqn:?; simpl in *
      end
  end.

End ExecTactics.

(** ** The builders *)

Module BuilderFacts.
Import TypeTraits Runtime Api ExecTactics.
Local Open Scope Z_scope.

Section SignalEmitterFacts.
Context `{build : Build} `{messages : MessageApi} `{object : !IObject}.
Import SignalEmitter.

(** What the destructor adds to the calls of [emitSignal]. *)
Lemma SignalEmitter_dtor_calls (w : world) (self : t) :
  calls (fst (snd (dtor (w, self))))
  = calls w ++ (if uncaught_exceptions w =? exceptions_ self then [signal_ self] else []).
Proof.
  unfold dtor. exec_unfold.
  destruct (uncaught_exceptions w =? exceptions_ self); simpl.
  - destruct (emitSignal (signal_ self) (peer w)); reflexivity.
  - rewrite app_nil_r. reflexivity.
Qed.

Lemma SignalEmitter_dtor_suppressed (w : world) (self : t) :
  uncaught_exceptions w <> exceptions_ self ->
  dtor (w, self) = (Normal tt, (w, self)).
Proof.
  intros Hne. unfold dtor. exec_unfold.
  apply Z.eqb_neq in Hne. rewrite Hne. reflexivity.
Qed.

(** The configuration steps emit nothing and leave the two exception
    counts alone. *)
Lemma SignalEmitter_run_preserves (s : step) (w : world) (self : t) :
  let '(_, (w', self')) := run s (w, self) in
  calls w' = calls w
  /\ uncaught_exceptions w' = uncaught_exceptions w
  /\ exceptions_ self' = exceptions_ self.
Proof.
  destruct s as [interfaceName | args]; simpl.
  - unfold onInterface. exec_unfold.
    destruct (createSignal interfaceName (signalName_ self) (peer w)) as [[signal|x|] o];
      simpl; auto.
  - unfold withArguments. exec_unfold.
    destruct NDEBUG; simpl.
    + destruct (serialize_pack (signal_ self) args) as [signal [e|]]; simpl; auto.
    + destruct (isValid (signal_ self)); simpl; auto.
      destruct (serialize_pack (signal_ self) args) as [signal [e|]]; simpl; auto.
Qed.

Lemma SignalEmitter_chain_preserves (steps : list step) (w : world) (self : t) :
  let '(_, (w', self')) := chain (List.map run steps) (w, self) in
  calls w' = calls w
  /\ uncaught_exceptions w' = uncaught_exceptions w
  /\ exceptions_ self' = exceptions_ self.
Proof.
  revert w self. induction steps as [|s steps IH]; intros w self; simpl.
  - auto.
  - unfold bind.
    pose proof (SignalEmitter_run_preserves s w self) as Hs.
    destruct (run s (w, self)) as [[[]|x|] [w1 self1]]; auto.
    specialize (IH w1 self1).
    destruct (chain (List.map run steps) (w1, self1)) as [r [w2 self2]].
    destruct Hs as (Hc & Hu & Hx), IH as (Hc' & Hu' & Hx').
    repeat split; congruence.
Qed.

(** What the destructor does: nothing when the count of uncaught
    exceptions is not the one it recorded, and else [emitSignal] on the
    object, which decides how the destructor ends. *)
Lemma SignalEmitter_dtor_run (w : world) (self : t) :
  dtor (w, self)
  = if uncaught_exceptions w =? exceptions_ self then
      (fst (emitSignal (signal_ self) (peer w)),
       ({| uncaught_exceptions := uncaught_exceptions w;
           peer := snd (emitSignal (signal_ self) (peer w));
           calls := calls w ++ [signal_ self] |}, self))
    else (Normal tt, (w, self)).
Proof.
  unfold dtor. exec_unfold.
  destruct (uncaught_exceptions w =? exceptions_ self); simpl; [|reflexivity].
  destruct (emitSignal (signal_ self) (peer w)) as [r o]. reflexivity.
Qed.

(** C2. The destructor of a [SignalEmitter] calls [IObject::emitSignal],
    once and with the signal built so far, if and only if
    [std::uncaught_exceptions()] has at destruction the value recorded at
    construction: it then ends as [emitSignal] ends and leaves the object as
    [emitSignal] leaves it; otherwise it does nothing.  In the statement
    [object.emitSignal(name).steps...;] the signal is emitted exactly once
    when the steps return, and not at all when one of them throws: the
    destructor then runs with one more exception in flight, and the
    exception goes on. *)
Theorem SignalEmitter_destructor_commits_iff_count_unchanged :
  (forall (w : world) (self : t),
      (uncaught_exceptions w = exceptions_ self ->
       dtor (w, self)
       = (fst (emitSignal (signal_ self) (peer w)),
          ({| uncaught_exceptions := uncaught_exceptions w;
              peer := snd (emitSignal (signal_ self) (peer w));
              calls := calls w ++ [signal_ self] |}, self)))
      /\ (uncaught_exceptions w <> exceptions_ self ->
          dtor (w, self) = (Normal tt, (w, self)))
      /\ (length (calls (fst (snd (dtor (w, self))))) = S (length (calls w))
          <-> uncaught_exceptions w = exceptions_ self))
  /\ (forall (signalName : string) (steps : list step) (w : world),
        let after := emit_statement signalName steps w in
        match chain (List.map run steps) (w, ctor signalName w) with
        | (Normal _, (w1, self)) =>
            calls w1 = calls w
            /\ after
              = (fst (emitSignal (signal_ self) (peer w1)),
                 {| uncaught_exceptions := uncaught_exceptions w;
                    peer := snd (emitSignal (signal_ self) (peer w1));
                    calls := calls w ++ [signal_ self] |})
        | (Thrown x, (w1, _)) => calls w1 = calls w /\ after = (Thrown x, w1)
        | (Aborted, (w1, _)) => calls w1 = calls w /\ after = (Aborted, w1)
        end).
Proof.
  split.
  - intros w self. pose proof (SignalEmitter_dtor_calls w self) as Hcalls.
    split; [|split].
    + intros Heq. rewrite SignalEmitter_dtor_run.
      apply Z.eqb_eq in Heq. rewrite Heq. reflexivity.
    + apply SignalEmitter_dtor_suppressed.
    + rewrite Hcalls, length_app.
      destruct (uncaught_exceptions w =? exceptions_ self) eqn:E; simpl.
      * apply Z.eqb_eq in E. split; [auto | intros _; lia].
      * apply Z.eqb_neq in E. split; [intros; lia | contradiction].
  - intros signalName steps w. unfold emit_statement, statement. simpl.
    pose proof (SignalEmitter_chain_preserves steps w (ctor signalName w)) as Hpres.
    revert Hpres.
    destruct (chain (List.map run steps) (w, ctor signalName w)) as [[[]|x|] [w1 self1]];
      simpl; intros (Hc & Hu & Hx); simpl in *.
    + split; [exact Hc|].
      rewrite SignalEmitter_dtor_run, Hu, Hx, Z.eqb_refl. simpl.
      rewrite Hc. reflexivity.
    + split; [exact Hc|].
      rewrite SignalEmitter_dtor_suppressed by (simpl; lia).
      simpl. destruct w1. reflexivity.
    + auto.
Qed.

End SignalEmitterFacts.

(** Closes a goal [at_most_one_call] once the run is evaluated. *)
Ltac solve_at_most_one :=
  split; [reflexivity|];
  split; [reflexivity|];
  first
    [ left; split; reflexivity
    | right; split;
      [ eexists; reflexivity
      | first [left; reflexivity | right; intros ?; discriminate] ] ].

Section MethodInvokerFacts.
Context `{build : Build} `{messages : MessageApi}
        `{proxy : !IProxy} `{declarations : Declarations}.
Import MethodInvoker.

(** What the destructor adds to the calls of [callMethod]. *)
Lemma MethodInvoker_dtor_calls (w : world) (self : t) :
  calls (fst (snd (dtor (w, self))))
  = calls w ++
    (if methodCalled_ self || negb (uncaught_exceptions w =? exceptions_ self) then []
     else [(method_ self, timeout_ self)]).
Proof.
  unfold dtor. exec_unfold.
  destruct (methodCalled_ self || negb (uncaught_exceptions w =? exceptions_ self)); simpl.
  - rewrite app_nil_r. reflexivity.
  - destruct (callMethod (method_ self) (timeout_ self) (peer w)) as [[reply|x|] p];
      reflexivity.
Qed.

Lemma MethodInvoker_dtor_suppressed (w : world) (self : t) :
  methodCalled_ self = true \/ uncaught_exceptions w <> exceptions_ self ->
  dtor (w, self) = (Normal tt, (w, self)).
Proof.
  intros Hs. unfold dtor. exec_unfold.
  replace (methodCalled_ self || negb (uncaught_exceptions w =? exceptions_ self))
    with true; [reflexivity|].
  destruct Hs as [-> | Hne]; [reflexivity|].
  apply Z.eqb_neq in Hne. rewrite Hne. symmetry. apply orb_true_r.
Qed.

Lemma MethodInvoker_storeResultsTo_calls (outs : Values) (w : world) (self : t) :
  at_most_one_call w self (storeResultsTo outs (w, self)).
Proof.
  unfold at_most_one_call, storeResultsTo. exec_unfold.
  repeat break_match; solve_at_most_one.
Qed.

Lemma MethodInvoker_run_calls (s : step) (w : world) (self : t) :
  at_most_one_call w self (run s (w, self))
  /\ (returns_this s = true -> no_call w self (run s (w, self))).
Proof.
  unfold at_most_one_call, no_call.
  destruct s as [interfaceName | usec | timeout | args | outs |]; simpl;
    unfold onInterface, withTimeout_duration, withTimeout, withArguments,
      storeResultsTo, dontExpectReply;
    exec_unfold;
    repeat break_match;
    (split; [solve_at_most_one | first [discriminate | intros _; repeat split; reflexivity]]).
Qed.

Lemma MethodInvoker_chain_calls (steps : list step) (w : world) (self : t) :
  well_chained steps = true ->
  at_most_one_call w self (chain (List.map run steps) (w, self)).
Proof.
  revert w self. induction steps as [|s steps IH]; intros w self Hwf.
  - simpl. unfold at_most_one_call, ret. auto.
  - destruct steps as [|s' steps].
    + (* the last call of the chain *)
      simpl. unfold bind, ret.
      pose proof (proj1 (MethodInvoker_run_calls s w self)) as Hs. revert Hs.
      unfold at_most_one_call.
      destruct (run s (w, self)) as [[[]|x|] [w' self']]; auto.
    + (* a call that returns [*this] *)
      simpl in Hwf. apply andb_true_iff in Hwf as [Hthis Hrest].
      pose proof (proj2 (MethodInvoker_run_calls s w self) Hthis) as Hs. revert Hs.
      change (chain (List.map run (s :: s' :: steps)))
        with (bind (run s) (fun _ => chain (List.map run (s' :: steps)))).
      unfold bind, no_call.
      destruct (run s (w, self)) as [[[]|x|] [w1 self1]].
      * intros (Hu & Hx & Hc & Hm).
        specialize (IH w1 self1 Hrest). revert IH. unfold at_most_one_call.
        destruct (chain (List.map run (s' :: steps)) (w1, self1)) as [r [w2 self2]].
        intros (Hu' & Hx' & Hcases).
        split; [congruence|]. split; [congruence|].
        destruct Hcases as [[Hc' Hm'] | [Hc' Hm']].
        -- left. split; congruence.
        -- right. split; [|exact Hm'].
           destruct Hc' as [c Hc']. exists c. congruence.
      * unfold at_most_one_call. intuition.
      * unfold at_most_one_call. intuition.
Qed.

(** What the destructor does: nothing when the method has been called
    or the count of uncaught exceptions is not the one it recorded, and else
    [callMethod] on the proxy, which decides how the destructor ends. *)
Lemma MethodInvoker_dtor_run (w : world) (self : t) :
  dtor (w, self)
  = if methodCalled_ self || negb (uncaught_exceptions w =? exceptions_ self) then
      (Normal tt, (w, self))
    else
      (discard (fst (callMethod (method_ self) (timeout_ self) (peer w))),
       ({| uncaught_exceptions := uncaught_exceptions w;
           peer := snd (callMethod (method_ self) (timeout_ self) (peer w));
           calls := calls w ++ [(method_ self, timeout_ self)] |}, self)).
Proof.
  unfold dtor. exec_unfold.
  destruct (methodCalled_ self || negb (uncaught_exceptions w =? exceptions_ self));
    simpl; [reflexivity|].
  destruct (callMethod (method_ self) (timeout_ self) (peer w)) as [[reply|x|] p];
    reflexivity.
Qed.

(** What [storeResultsTo] does once its assertion has passed: [callMethod]
    on the proxy, and only when that returned, the flag and the read. *)
Lemma MethodInvoker_storeResultsTo_run (outs : Values) (w : world) (self : t) :
  storeResultsTo outs (w, self)
  = if NDEBUG || isValid (method_ self) then
      let w' := {| uncaught_exceptions := uncaught_exceptions w;
                   peer := snd (callMethod (method_ self) (timeout_ self) (peer w));
                   calls := calls w ++ [(method_ self, timeout_ self)] |} in
      match fst (callMethod (method_ self) (timeout_ self) (peer w)) with
      | Normal reply =>
          (match deserialize_pack reply outs with
           | (outs', None) => Normal outs'
           | (_, Some e) => Thrown (SdbusError e)
           end, (w', set_methodCalled_ true self))
      | Thrown x => (Thrown x, (w', self))
      | Aborted => (Aborted, (w', self))
      end
    else (Aborted, (w, self)).
Proof.
  unfold storeResultsTo. exec_unfold.
  destruct NDEBUG; simpl; [|destruct (isValid (method_ self)); simpl; [|reflexivity]];
    destruct (callMethod (method_ self) (timeout_ self) (peer w)) as [[reply|x|] p];
    simpl; try reflexivity;
    destruct (deserialize_pack reply outs) as [outs' [e|]]; reflexivity.
Qed.

(** C3 (amended). A [MethodInvoker] that is used as the code prescribes,
    as the temporary of one statement [proxy.callMethod(name).steps...;],
    calls its method at most once.  [storeResultsTo] calls
    [IProxy::callMethod] once and, when that call returned, sets
    [methodCalled_]: the destructor then does nothing, whatever
    [std::uncaught_exceptions()] is.  When the method has not been called and
    the count of uncaught exceptions is the one recorded at construction, the
    destructor calls [callMethod], once, and ends as that call ends.  When
    the count differs, the destructor does nothing.  So the statement makes
    at most one call: none in the destructor when [storeResultsTo] made it or
    a step threw, and exactly one, in the destructor, when the steps returned
    without it. *)
Theorem MethodInvoker_commits_at_most_once :
  (forall (outs : Values) (w : world) (self : t),
      let w' := {| uncaught_exceptions := uncaught_exceptions w;
                   peer := snd (callMethod (method_ self) (timeout_ self) (peer w));
                   calls := calls w ++ [(method_ self, timeout_ self)] |} in
      if NDEBUG || isValid (method_ self) then
        match fst (callMethod (method_ self) (timeout_ self) (peer w)) with
        | Normal reply =>
            storeResultsTo outs (w, self)
            = (match deserialize_pack reply outs with
               | (outs', None) => Normal outs'
               | (_, Some e) => Thrown (SdbusError e)
               end, (w', set_methodCalled_ true self))
            /\ forall n : Z,
                 dtor (with_uncaught n w', set_methodCalled_ true self)
                 = (Normal tt, (with_uncaught n w', set_methodCalled_ true self))
        | Thrown x => storeResultsTo outs (w, self) = (Thrown x, (w', self))
        | Aborted => storeResultsTo outs (w, self) = (Aborted, (w', self))
        end
      else storeResultsTo outs (w, self) = (Aborted, (w, self)))
  /\ (forall (w : world) (self : t),
        methodCalled_ self = false ->
        uncaught_exceptions w = exceptions_ self ->
        dtor (w, self)
        = (discard (fst (callMethod (method_ self) (timeout_ self) (peer w))),
           ({| uncaught_exceptions := uncaught_exceptions w;
               peer := snd (callMethod (method_ self) (timeout_ self) (peer w));
               calls := calls w ++ [(method_ self, timeout_ self)] |}, self)))
  /\ (forall (w : world) (self : t),
        methodCalled_ self = true \/ uncaught_exceptions w <> exceptions_ self ->
        dtor (w, self) = (Normal tt, (w, self)))
  /\ (forall (methodName : string) (steps : list step) (w : world),
        well_chained steps = true ->
        let after := call_statement methodName steps w in
        (length (calls (snd after)) <= S (length (calls w)))%nat
        /\ (forall s, chain (List.map run steps) (w, ctor methodName w) = (Normal tt, s) ->
            length (calls (snd after)) = S (length (calls w)))
        /\ match chain (List.map run steps) (w, ctor methodName w) with
           | (Normal _, (w1, self)) =>
               if methodCalled_ self then
                 (exists c, calls w1 = calls w ++ [c]) /\ after = (Normal tt, w1)
               else
                 calls w1 = calls w
                 /\ after
                   = (discard (fst (callMethod (method_ self) (timeout_ self) (peer w1))),
                      {| uncaught_exceptions := uncaught_exceptions w;
                         peer := snd (callMethod (method_ self) (timeout_ self) (peer w1));
                         calls := calls w ++ [(method_ self, timeout_ self)] |})
           | (Thrown x, (w1, _)) =>
               (calls w1 = calls w \/ exists c, calls w1 = calls w ++ [c])
               /\ after = (Thrown x, w1)
           | (Aborted, (w1, _)) =>
               (calls w1 = calls w \/ exists c, calls w1 = calls w ++ [c])
               /\ after = (Aborted, w1)
           end).
Proof.
  split; [|split; [|split]].
  - intros outs w self. simpl.
    rewrite MethodInvoker_storeResultsTo_run.
    destruct (NDEBUG || isValid (method_ self)); [|reflexivity].
    destruct (fst (callMethod (method_ self) (timeout_ self) (peer w))) as [reply|x|];
      try reflexivity.
    split; [reflexivity|].
    intros n. apply MethodInvoker_dtor_suppressed. left. reflexivity.
  - intros w self Hm Heq.
    rewrite MethodInvoker_dtor_run, Hm.
    apply Z.eqb_eq in Heq. rewrite Heq. reflexivity.
  - intros w self Hs. apply MethodInvoker_dtor_suppressed. exact Hs.
  - intros methodName steps w Hwf. unfold call_statement, statement. simpl.
    pose proof (MethodInvoker_chain_calls steps w (ctor methodName w) Hwf) as Hchain.
    revert Hchain. unfold at_most_one_call.
    destruct (chain (List.map run steps) (w, ctor methodName w)) as [[[]|x|] [w1 self1]];
      simpl; intros (Hu & Hx & Hcases).
    + (* the steps returned: the destructor runs with the count unchanged *)
      rewrite MethodInvoker_dtor_run, Hu, Hx, Z.eqb_refl. simpl.
      destruct Hcases as [[Hc Hm] | [[c Hc] [Hm | Hn]]].
      * rewrite Hm. simpl. rewrite Hc, length_app. simpl.
        split; [lia|]. split; [intros; lia|]. split; reflexivity.
      * rewrite Hm. simpl. rewrite Hc, length_app. simpl.
        split; [lia|]. split; [intros; lia|].
        split; [exists c; reflexivity|]. reflexivity.
      * exfalso. apply (Hn tt). reflexivity.
    + (* a step threw: the destructor runs during unwinding *)
      rewrite MethodInvoker_dtor_suppressed by (right; simpl; lia).
      simpl.
      split; [|split; [discriminate|]].
      * destruct Hcases as [[Hc Hm] | [[c Hc] _]]; rewrite Hc;
          [|rewrite length_app; simpl]; lia.
      * split; [|destruct w1; reflexivity].
        destruct Hcases as [[Hc Hm] | [[c Hc] _]]; [left; exact Hc | right; exists c; exact Hc].
    + split; [|split; [discriminate|]].
      * destruct Hcases as [[Hc Hm] | [[c Hc] _]]; rewrite Hc;
          [|rewrite length_app; simpl]; lia.
      * split; [|reflexivity].
        destruct Hcases as [[Hc Hm] | [[c Hc] _]]; [left; exact Hc | right; exists c; exact Hc].
Qed.

End MethodInvokerFacts.

(** *** Runs on the instance *)

#[local] Existing Instance Model.messages.
#[local] Existing Instance Model.object.
#[local] Existing Instance Model.proxy.
#[local] Existing Instance Model.declarations.

(** [object.emitSignal("dataSignal").onInterface(I).withArguments("x");]
    emits the signal once, at the end of the statement. *)
Example emitDataSignal_emits_once :
  SignalEmitter.emit_statement (build := release) "dataSignal"
    [SignalEmitter.OnInterface "org.sdbuscpp.perftests";
     SignalEmitter.WithArguments [Model.VString "x"]]
    (Model.fresh [])
  = (Normal tt,
     {| uncaught_exceptions := 0;
        peer := [Model.incoming [Model.VString "x"]];
        calls := [Model.incoming [Model.VString "x"]] |}).
Proof. reflexivity. Qed.

(** In a release build, [withArguments] without [onInterface] throws while
    it serializes into the invalid message; the destructor then runs during
    unwinding and does not emit. *)
Example failing_step_suppresses_emission :
  SignalEmitter.emit_statement (build := release) "dataSignal"
    [SignalEmitter.WithArguments [Model.VString "x"]]
    (Model.fresh [])
  = (Thrown (SdbusError Model.invalid_message_error), Model.fresh []).
Proof. reflexivity. Qed.

(** [proxy.callMethod(M).onInterface(I).withArguments(1, 2).storeResultsTo(a, b);]
    calls the method once, in [storeResultsTo]. *)
Example storeResultsTo_calls_once :
  MethodInvoker.call_statement (build := debug) "sendDataSignals"
    [MethodInvoker.OnInterface "org.sdbuscpp.perftests";
     MethodInvoker.WithArguments [Model.VInt32 1; Model.VInt32 2];
     MethodInvoker.StoreResultsTo [Model.VInt32 0; Model.VInt32 0]]
    (Model.fresh tt)
  = (Normal tt,
     {| uncaught_exceptions := 0;
        peer := tt;
        calls := [({| Model.valid := true;
                      Model.interface := "org.sdbuscpp.perftests";
                      Model.member := "sendDataSignals";
                      Model.payload := [Model.VInt32 1; Model.VInt32 2];
                      Model.no_reply := false |}, 0)] |}).
Proof. reflexivity. Qed.

(** The reply does not have the types of the variables: [storeResultsTo]
    throws after the call, and the destructor does not call again. *)
Example failed_read_does_not_call_again :
  MethodInvoker.call_statement (build := debug) "sendDataSignals"
    [MethodInvoker.OnInterface "org.sdbuscpp.perftests";
     MethodInvoker.WithArguments [Model.VInt32 1];
     MethodInvoker.StoreResultsTo [Model.VString ""]]
    (Model.fresh tt)
  = (Thrown (SdbusError Model.deserialization_failure),
     {| uncaught_exceptions := 0;
        peer := tt;
        calls := [({| Model.valid := true;
                      Model.interface := "org.sdbuscpp.perftests";
                      Model.member := "sendDataSignals";
                      Model.payload := [Model.VInt32 1];
                      Model.no_reply := false |}, 0)] |}).
Proof. reflexivity. Qed.

(** [proxy.callMethod(M).onInterface(I).dontExpectReply();] calls the
    method once, in the destructor, with the no-reply flag set. *)
Example dontExpectReply_calls_on_scope_exit :
  MethodInvoker.call_statement (build := debug) "sendDataSignals"
    [MethodInvoker.OnInterface "org.sdbuscpp.perftests"; MethodInvoker.DontExpectReply]
    (Model.fresh tt)
  = (Normal tt,
     {| uncaught_exceptions := 0;
        peer := tt;
        calls := [({| Model.valid := true;
                      Model.interface := "org.sdbuscpp.perftests";
                      Model.member := "sendDataSignals";
                      Model.payload := [];
                      Model.no_reply := true |}, 0)] |}).
Proof. reflexivity. Qed.

(** C3: a [MethodInvoker] that is not the temporary of one statement calls
    twice.  The invoker is named; [onInterface] returns, [storeResultsTo]
    throws in [callMethod] (the call times out) before [methodCalled_] is
    set, and the caller catches the error.  When the invoker then goes out
    of scope, no exception is in flight and its destructor calls the method
    again: the proxy has been asked twice. *)
Lemma named_MethodInvoker_calls_twice :
  let w := Model.fresh (Peer := nat) (Call := Model.message * Z) 0%nat in
  let method := Model.create "org.sdbuscpp.perftests" "concatenateTwoStrings" in
  let invoker := MethodInvoker.ctor (proxy := Model.timing_out) "concatenateTwoStrings" w in
  let configured :=
    MethodInvoker.onInterface (proxy := Model.timing_out) "org.sdbuscpp.perftests"
      (w, invoker) in
  let stored :=
    MethodInvoker.storeResultsTo (build := debug) (proxy := Model.timing_out)
      [Model.VString ""] (snd configured) in
  let destroyed := MethodInvoker.dtor (proxy := Model.timing_out) (snd stored) in
  fst configured = Normal tt
  /\ fst stored = Thrown (SdbusError Model.timeout_error)
  /\ MethodInvoker.methodCalled_ (snd (snd stored)) = false
  /\ uncaught_exceptions (fst (snd stored)) = MethodInvoker.exceptions_ (snd (snd stored))
  /\ calls (fst (snd stored)) = [(method, 0)]
  /\ fst destroyed = Thrown (SdbusError Model.timeout_error)
  /\ calls (fst (snd destroyed)) = [(method, 0); (method, 0)]
  /\ peer (fst (snd destroyed)) = 2%nat.
Proof. repeat split. Qed.

End BuilderFacts.

(** ** Reply and signal handlers *)

Module HandlerFacts.
Import TypeTraits Runtime Api ExecTactics.

Section HandlerFacts.
Context `{messages : MessageApi} {U : Type}.

(** What the callback is called with by a handler that reroutes a failed
    read: a remote error with the untouched default tuple, no error with the
    values read, or the error of the read with the tuple as the read left
    it. *)
Lemma asyncReplyHandler_run (args : list cxx_type)
    (callback : option Error -> Values -> Exec U unit)
    (reply : Message) (error : option Error) (d : Dispatch U) :
  asyncReplyHandler args callback reply error d
  = match error with
    | Some e =>
        let '(r, u) := callback (Some e) (default_tuple (List.map decay args)) (user d) in
        (r, {| user := u;
               invocations := invocations d
                 ++ [Invoked (Some e) (default_tuple (List.map decay args))] |})
    | None =>
        let '(read, failure) :=
          deserialize_pack reply (default_tuple (List.map decay args)) in
        let '(r, u) := callback failure read (user d) in
        (r, {| user := u; invocations := invocations d ++ [Invoked failure read] |})
    end.
Proof.
  unfold asyncReplyHandler, apply_with_error, read_tuple, default_arguments.
  exec_unfold_handlers.
  destruct error as [e|]; simpl.
  - destruct (callback (Some e) (default_tuple (List.map decay args)) (user d)) as [[[]|x|] u];
      reflexivity.
  - destruct (deserialize_pack reply (default_tuple (List.map decay args)))
      as [read [failure|]]; simpl.
    + destruct (callback (Some failure) read (user d)) as [[[]|x|] u]; reflexivity.
    + destruct (callback None read (user d)) as [[[]|x|] u]; reflexivity.
Qed.

(** C4. Each run of the reply handler built by [uponReplyInvoke] calls
    the user callback exactly once, and ends as that call ends: with no
    error and the values read from the reply when the read succeeds; with
    the error of the read and the default-initialised argument tuple when
    the read throws; with the remote error and the default-initialised tuple
    when the reply carries an error.  An error of the read never leaves the
    handler.  The read is [operator>>] of Message.h, which is not among the
    sources: it is taken with the contract the spec gives it, that a read
    which fails has stored nothing. *)
Theorem reply_handler_invokes_callback_once (args : list cxx_type)
    (callback : option Error -> Values -> Exec U unit)
    (reply : Message) (error : option Error) (d : Dispatch U) :
  failed_read_stores_nothing ->
  let args0 := default_arguments (FunctionWithError args) in
  let '(error', args') :=
    match error with
    | Some e => (Some e, args0)
    | None =>
        match deserialize_pack reply args0 with
        | (read, None) => (None, read)
        | (_, Some e) => (Some e, args0)
        end
    end in
  let after := asyncReplyHandler args callback reply error d in
  invocations (snd after) = invocations d ++ [Invoked error' args']
  /\ fst after = fst (callback error' args' (user d))
  /\ user (snd after) = snd (callback error' args' (user d)).
Proof.
  intros Hread.
  rewrite asyncReplyHandler_run. unfold default_arguments. simpl.
  destruct error as [e|].
  - destruct (callback (Some e) (default_tuple (List.map decay args)) (user d)) as [r u].
    auto.
  - pose proof (Hread reply (default_tuple (List.map decay args))) as Hkept.
    destruct (deserialize_pack reply (default_tuple (List.map decay args)))
      as [read [e|]]; simpl in *.
    + rewrite (Hkept e eq_refl).
      destruct (callback (Some e) (default_tuple (List.map decay args)) (user d)) as [r u].
      auto.
    + destruct (callback None read (user d)) as [r u]. auto.
Qed.

(** C1 (amended). The signal handler [SignalSubscriber::call] registers
    for a callback without error parameter reads the signal and then calls
    the callback once with the values read.  When the read throws, the
    callback is not called and nothing of the user's state changes; the
    handler does not catch the error, which leaves it as an exception to
    whoever called the handler. *)
Theorem pure_signal_handler_does_not_catch (args : list cxx_type)
    (body : Values -> Exec U unit) (signal : Message) (d : Dispatch U) :
  signalHandler (PureCallback args body) signal d
  = match deserialize_pack signal (default_arguments (Function RVoid args)) with
    | (_, Some e) => (Thrown (SdbusError e), d)
    | (read, None) =>
        (fst (body read (user d)),
         {| user := snd (body read (user d));
            invocations := invocations d ++ [InvokedPure read] |})
    end.
Proof.
  unfold signalHandler, apply_pure, read_tuple. simpl callback_type.
  exec_unfold_handlers.
  destruct (deserialize_pack signal (default_arguments (Function RVoid args)))
    as [read [e|]]; simpl.
  - destruct d. reflexivity.
  - destruct (body read (user d)) as [[[]|x|] u]; reflexivity.
Qed.

(** The handler of a callback with an error parameter catches the error of
    the read and hands it to the callback. *)
Lemma error_signal_handler_run (args : list cxx_type)
    (body : option Error -> Values -> Exec U unit) (signal : Message) (d : Dispatch U) :
  signalHandler (ErrorCallback args body) signal d
  = let '(read, failure) :=
      deserialize_pack signal (default_arguments (FunctionWithError args)) in
    (fst (body failure read (user d)),
     {| user := snd (body failure read (user d));
        invocations := invocations d ++ [Invoked failure read] |}).
Proof.
  unfold signalHandler, apply_with_error, read_tuple. simpl callback_type.
  exec_unfold_handlers.
  destruct (deserialize_pack signal (default_arguments (FunctionWithError args)))
    as [read [e|]]; simpl.
  - destruct (body (Some e) read (user d)) as [[[]|x|] u]; reflexivity.
  - destruct (body None read (user d)) as [[[]|x|] u]; reflexivity.
Qed.

Lemma has_error_param_of_callback (callback : Callback U) :
  has_error_param_v (callback_type callback)
  = Some match callback with
         | PureCallback _ _ => false
         | ErrorCallback _ _ => true
         end.
Proof. destruct callback; reflexivity. Qed.

End HandlerFacts.

Section FutureFacts.
Context `{build : Build} `{messages : MessageApi}
        `{proxy : !IProxy} `{declarations : Declarations}.


End FutureFacts.

(** *** Runs on the instance *)

#[local] Existing Instance Model.messages.
#[local] Existing Instance Model.proxy.
#[local] Existing Instance Model.declarations.

(** The read of the instance keeps the contract: when it fails, the
    targets are returned as they were. *)
Lemma Model_failed_read_stores_nothing :
  failed_read_stores_nothing (messages := Model.messages).
Proof.
  intros msg targets e. simpl. unfold Model.read_values.
  destruct (Model.read_payload (Model.payload msg) targets); simpl;
    [discriminate | reflexivity].
Qed.

(** A reply of two integers read into the parameters [(int32_t,
    std::string)] of a callback: the read throws at the second value, and
    the callback gets the error and the default-initialised tuple
    [(0, "")]. *)
Lemma reply_handler_on_failed_read :
  let after :=
    asyncReplyHandler [TInt32; TString] Model.keep_arguments
      (Model.incoming [Model.VInt32 7; Model.VInt32 8]) None
      {| user := [Model.VInt32 1]; invocations := [] |} in
  invocations (snd after)
  = [] ++ [Invoked (Some Model.deserialization_failure) [Model.VInt32 0; Model.VString ""]]
  /\ fst after = Normal tt
  /\ user (snd after) = [Model.VInt32 0; Model.VString ""].
Proof.
  exact (reply_handler_invokes_callback_once [TInt32; TString] Model.keep_arguments
           (Model.incoming [Model.VInt32 7; Model.VInt32 8]) None
           {| user := [Model.VInt32 1]; invocations := [] |}
           Model_failed_read_stores_nothing).
Defined.

(** C1: a signal carrying a string, dispatched to the handler of a
    callback [void(int32_t)]: the read throws, the callback is not called,
    and the handler ends with the exception in flight. *)
Lemma pure_signal_handler_lets_error_escape :
  signalHandler (PureCallback [TInt32] Model.keep_pure_arguments)
    (Model.incoming [Model.VString "x"])
    {| user := []; invocations := [] |}
  = (Thrown (SdbusError Model.deserialization_failure),
     {| user := []; invocations := [] |}).
Proof. reflexivity. Qed.

(** [getResultAsFuture<int32_t>()] against a reply carrying 7: the future
    holds 7. *)
Example future_of_single_value :
  asyncReplyHandler [TInt32] (promise_callback [TInt32])
    (Model.incoming [Model.VInt32 7]) None
    {| user := NotReady; invocations := [] |}
  = (Normal tt,
     {| user := Ready (Some [Model.VInt32 7]);
        invocations := [Invoked None [Model.VInt32 7]] |})
  /\ future_return [TInt32] = RType TInt32.
Proof. split; reflexivity. Qed.

(** [getResultAsFuture<int32_t, std::string>()] against the reply
    [(3, "x")]: the future holds the pair. *)
Example future_of_two_values :
  asyncReplyHandler [TInt32; TString] (promise_callback [TInt32; TString])
    (Model.incoming [Model.VInt32 3; Model.VString "x"]) None
    {| user := NotReady; invocations := [] |}
  = (Normal tt,
     {| user := Ready (Some [Model.VInt32 3; Model.VString "x"]);
        invocations := [Invoked None [Model.VInt32 3; Model.VString "x"]] |})
  /\ future_return [TInt32; TString] = RType (TTuple [TInt32; TString]).
Proof. split; reflexivity. Qed.

(** [proxy.callMethodAsync(M).onInterface(I).getResultAsFuture<int32_t>()]
    makes the asynchronous call and returns a future of [int32_t]. *)
Example getResultAsFuture_registers_the_call :
  let s := (Model.fresh tt, AsyncMethodInvoker.ctor "concatenateTwoStrings" (Model.fresh tt)) in
  let after :=
    bind (AsyncMethodInvoker.onInterface "org.sdbuscpp.perftests")
      (fun _ => AsyncMethodInvoker.getResultAsFuture (build := debug) [TInt32]) s in
  (exists handler, fst after = Normal (RType TInt32, handler))
  /\ calls (fst (snd after))
    = [(Model.create "org.sdbuscpp.perftests" "concatenateTwoStrings", 0%Z)].
Proof. split; [eexists|]; reflexivity. Qed.

(** [getResultAsFuture<>()] against an empty reply, and against a remote
    error. *)
Example future_of_void_and_of_error :
  user (snd (asyncReplyHandler [] (promise_callback [])
               (Model.incoming []) None
               {| user := NotReady; invocations := [] |}))
  = Ready None
  /\ user (snd (asyncReplyHandler [TInt32] (promise_callback [TInt32])
                  (Model.incoming []) (Some Model.invalid_message_error)
                  {| user := NotReady; invocations := [] |}))
    = Failed Model.invalid_message_error.
Proof. split; reflexivity. Qed.

End HandlerFacts.

(** ** Timeouts given as durations *)

Module TimeoutFacts.
Import Runtime Api chrono.
Local Open Scope Z_scope.

Lemma static_cast_int64_in_range (z : Z) :
  in_int64 z -> static_cast_int64 z = z.
Proof.
  unfold in_int64, static_cast_int64. intros Hz.
  rewrite Z.mod_small by lia. lia.
Qed.

(** Converting to [int64_t] and then to [uint64_t] is the conversion to
    [uint64_t]. *)
Lemma static_cast_uint64_of_int64 (z : Z) :
  static_cast_uint64 (static_cast_int64 z) = static_cast_uint64 z.
Proof.
  unfold static_cast_uint64, static_cast_int64.
  rewrite (Z.mod_eq (z + 2 ^ 63) (2 ^ 64)) by lia.
  replace (z + 2 ^ 63 - 2 ^ 64 * ((z + 2 ^ 63) / 2 ^ 64) - 2 ^ 63)
    with (z + (- ((z + 2 ^ 63) / 2 ^ 64)) * 2 ^ 64) by ring.
  apply Z_mod_plus_full.
Qed.

Lemma quot_in_int64 (z m : Z) :
  0 < m -> in_int64 z -> in_int64 (z ÷ m).
Proof.
  unfold in_int64. intros Hm Hz.
  destruct (Z_le_gt_dec 0 z) as [Hpos | Hneg].
  - rewrite Z.quot_div_nonneg by lia.
    pose proof (Z.div_pos z m Hpos Hm).
    pose proof (Z.div_le_upper_bound z m z Hm ltac:(nia)). lia.
  - replace z with (- - z) by lia. rewrite Z.quot_opp_l by lia.
    rewrite Z.quot_div_nonneg by lia.
    pose proof (Z.div_pos (- z) m ltac:(lia) Hm).
    pose proof (Z.div_le_upper_bound (- z) m (- z) Hm ltac:(nia)). lia.
Qed.

(** The conversion factor, in lowest terms, is the ratio of the period to
    a microsecond. *)
Lemma CF_spec (d : duration) :
  exists g : Z,
    0 < g
    /\ Z.pos (period_num d) * 1000000 = g * fst (CF d)
    /\ Z.pos (period_den d) = g * snd (CF d)
    /\ 0 < fst (CF d) /\ 0 < snd (CF d).
Proof.
  unfold CF, ratio_divide_micro.
  set (n := Z.pos (period_num d) * 1000000).
  set (m := Z.pos (period_den d) * 1).
  assert (Hn : 0 < n) by (unfold n; lia).
  assert (Hm : 0 < m) by (unfold m; lia).
  assert (Em : Z.pos (period_den d) = m) by (unfold m; lia).
  rewrite Em. clearbody n m.
  exists (Z.gcd n m).
  assert (Hg : 0 < Z.gcd n m).
  { pose proof (Z.gcd_nonneg n m).
    assert (Z.gcd n m <> 0) by (intros H0; apply Z.gcd_eq_0_l in H0; lia).
    lia. }
  destruct (Z.gcd_divide_l n m) as [a Ha].
  destruct (Z.gcd_divide_r n m) as [b Hb].
  assert (Ea : n / Z.gcd n m = a) by (rewrite Ha at 1; apply Z.div_mul; lia).
  assert (Eb : m / Z.gcd n m = b) by (rewrite Hb at 1; apply Z.div_mul; lia).
  simpl fst. simpl snd. rewrite Ea, Eb.
  repeat split; try lia; nia.
Qed.

Lemma whole_microseconds_CF (d : duration) :
  whole_microseconds d = (count d * fst (CF d)) ÷ snd (CF d).
Proof.
  destruct (CF_spec d) as (g & Hg & Hn & Hm & Hnum & Hden).
  unfold whole_microseconds. rewrite Hn, Hm.
  replace (count d * (g * fst (CF d))) with (g * (count d * fst (CF d))) by ring.
  apply Z.quot_mul_cancel_l; lia.
Qed.

(** With a signed common representation, [duration_cast] to microseconds
    truncates toward zero. *)
Lemma duration_cast_microseconds_truncates (d : duration) :
  CR_is_unsigned (rep d) = false ->
  in_int64 (count d * fst (CF d)) ->
  duration_cast_microseconds d = whole_microseconds d
  /\ in_int64 (whole_microseconds d).
Proof.
  intros Hsigned Hrange.
  destruct (CF_spec d) as (g & Hg & Hn & Hm & Hnum & Hden).
  pose proof (whole_microseconds_CF d) as Hwhole.
  assert (Hq : in_int64 ((count d * fst (CF d)) ÷ snd (CF d)))
    by (apply quot_in_int64; assumption).
  split; [|rewrite Hwhole; exact Hq].
  rewrite Hwhole. unfold duration_cast_microseconds. rewrite Hsigned.
  destruct (CF d) as [num den]. simpl fst in *. simpl snd in *.
  destruct (num =? 1) eqn:En; destruct (den =? 1) eqn:Ed; simpl;
    try apply Z.eqb_eq in En; try apply Z.eqb_eq in Ed; subst;
    rewrite ?Z.mul_1_r, ?Z.quot_1_r in *;
    apply static_cast_int64_in_range; assumption.
Qed.

(** With the unsigned common representation, and no wrap in the product,
    [duration_cast] gives the whole microseconds converted to [int64_t]. *)
Lemma duration_cast_microseconds_unsigned (d : duration) :
  CR_is_unsigned (rep d) = true ->
  0 <= count d ->
  count d * fst (CF d) < 2 ^ 64 ->
  duration_cast_microseconds d = static_cast_int64 (whole_microseconds d)
  /\ 0 <= whole_microseconds d < 2 ^ 64.
Proof.
  intros Hunsigned Hcount Hrange.
  destruct (CF_spec d) as (g & Hg & Hn & Hm & Hnum & Hden).
  pose proof (whole_microseconds_CF d) as Hwhole.
  assert (Hprod : 0 <= count d * fst (CF d)) by nia.
  assert (Hc : static_cast_uint64 (count d) = count d).
  { unfold static_cast_uint64. apply Z.mod_small. nia. }
  assert (Hp : static_cast_uint64 (count d * fst (CF d)) = count d * fst (CF d)).
  { unfold static_cast_uint64. apply Z.mod_small. lia. }
  assert (Hq : (count d * fst (CF d)) ÷ snd (CF d) = count d * fst (CF d) / snd (CF d))
    by (apply Z.quot_div_nonneg; lia).
  split.
  - rewrite Hwhole, Hq. unfold duration_cast_microseconds. rewrite Hunsigned, Hc.
    destruct (CF d) as [num den]. simpl fst in *. simpl snd in *.
    destruct (num =? 1) eqn:En; destruct (den =? 1) eqn:Ed; simpl;
      try apply Z.eqb_eq in En; try apply Z.eqb_eq in Ed; subst;
      rewrite ?Z.mul_1_r, ?Z.div_1_r in *; rewrite ?Hp; reflexivity.
  - rewrite Hwhole, Hq. split.
    + apply Z.div_pos; lia.
    + pose proof (Z.div_le_upper_bound (count d * fst (CF d)) (snd (CF d))
                    (count d * fst (CF d)) Hden ltac:(nia)).
      lia.
Qed.

(** What [withTimeout(d)] passes on to [withTimeout(uint64_t)]. *)
Lemma stored_microseconds (d : duration) :
  conversion_fits d ->
  static_cast_uint64 (duration_cast_microseconds d) = whole_microseconds d mod 2 ^ 64.
Proof.
  unfold conversion_fits. intros Hfits.
  destruct (CR_is_unsigned (rep d)) eqn:Hrep.
  - destruct Hfits as [Hcount Hrange].
    destruct (duration_cast_microseconds_unsigned d Hrep Hcount Hrange) as [Hcast _].
    rewrite Hcast. apply static_cast_uint64_of_int64.
  - destruct (duration_cast_microseconds_truncates d Hrep Hfits) as [Hcast _].
    rewrite Hcast. reflexivity.
Qed.



Section StoredTimeout.
Context `{messages : MessageApi} `{proxy : !IProxy} `{declarations : Declarations}.


End StoredTimeout.

(** *** Runs on the instance *)

#[local] Existing Instance Model.messages.
#[local] Existing Instance Model.proxy.
#[local] Existing Instance Model.declarations.



End TimeoutFacts.

(** ** The assertions on the order of the steps *)

Module AssertionFacts.
Import TypeTraits Runtime Api ExecTactics.

Section AssertionFacts.
Context `{messages : MessageApi} `{object : !IObject}
        `{proxy : !IProxy} `{declarations : Declarations}.

(** In a debug build a step with an [assert] aborts when the assertion is
    false, and runs as in a release build when it is true. *)
Lemma assert_false_aborts {St : Type} (s : St) :
  assert (build := debug) false s = (Aborted, s).
Proof. reflexivity. Qed.

Lemma assert_true_passes {St : Type} (s : St) :
  assert (build := debug) true s = assert (build := release) true s.
Proof. reflexivity. Qed.

(** C8 (amended). Let the default-constructed message be invalid, and the
    messages [createSignal] and [createMethodCall] return be valid.  In a
    debug build, a step that carries an assertion ([withArguments],
    [storeResultsTo], [dontExpectReply], [uponReplyInvoke],
    [getResultAsFuture], [SignalSubscriber::call]) aborts when the builder
    has no valid message, or an empty interface name: so it does on a
    builder that was just constructed.  [withTimeout] carries no assertion
    and returns on such a builder.  Once [onInterface] has returned, with a
    non-empty name for [SignalSubscriber], the message is valid and the
    name non-empty, and on such a builder each of these steps runs in a
    debug build as it does in a release build: its assertion passes.  When
    serializing and setting the no-reply flag keep a message valid, every
    step keeps the message of the builder valid, so the assertions of the
    steps that follow pass too. *)
Theorem assertions_hold_after_onInterface :
  isValid Message_default = false ->
  (forall (interfaceName signalName : string) (o : Object),
      match createSignal interfaceName signalName o with
      | (Normal signal, _) => isValid signal = true
      | _ => True
      end) ->
  (forall (interfaceName methodName : string) (p : Proxy),
      match createMethodCall interfaceName methodName p with
      | (Normal method, _) => isValid method = true
      | _ => True
      end) ->
  (forall (m : Message) (values : Values),
      isValid (fst (serialize_pack m values)) = isValid m) ->
  (forall m : Message, isValid (Message_dontExpectReply m) = isValid m) ->
  (* SignalEmitter *)
  ((forall (name : string) (w : SignalEmitter.world),
       isValid (SignalEmitter.signal_ (SignalEmitter.ctor name w)) = false)
   /\ (forall (s : SignalEmitter.world * SignalEmitter.t) (args : Values),
         isValid (SignalEmitter.signal_ (snd s)) = false ->
         SignalEmitter.withArguments (build := debug) args s = (Aborted, s))
   /\ (forall (s s' : SignalEmitter.world * SignalEmitter.t) (interfaceName : string),
         SignalEmitter.onInterface interfaceName s = (Normal tt, s') ->
         isValid (SignalEmitter.signal_ (snd s')) = true)
   /\ (forall (s : SignalEmitter.world * SignalEmitter.t) (args : Values),
         isValid (SignalEmitter.signal_ (snd s)) = true ->
         SignalEmitter.withArguments (build := debug) args s
         = SignalEmitter.withArguments (build := release) args s)
   /\ (forall (s : SignalEmitter.world * SignalEmitter.t) (step : SignalEmitter.step),
         isValid (SignalEmitter.signal_ (snd s)) = true ->
         isValid (SignalEmitter.signal_
                    (snd (snd (SignalEmitter.run (build := debug) step s)))) = true))
  (* MethodInvoker *)
  /\ ((forall (name : string) (w : MethodInvoker.world),
         isValid (MethodInvoker.method_ (MethodInvoker.ctor name w)) = false)
     /\ (forall (s : MethodInvoker.world * MethodInvoker.t) (values : Values),
           isValid (MethodInvoker.method_ (snd s)) = false ->
           MethodInvoker.withArguments (build := debug) values s = (Aborted, s)
           /\ MethodInvoker.storeResultsTo (build := debug) values s = (Aborted, s)
           /\ MethodInvoker.dontExpectReply (build := debug) s = (Aborted, s))
     /\ (forall (s : MethodInvoker.world * MethodInvoker.t) (usec : Z),
           MethodInvoker.withTimeout usec s
           = (Normal tt, (fst s, MethodInvoker.set_timeout_ usec (snd s))))
     /\ (forall (s s' : MethodInvoker.world * MethodInvoker.t) (interfaceName : string),
           MethodInvoker.onInterface interfaceName s = (Normal tt, s') ->
           isValid (MethodInvoker.method_ (snd s')) = true)
     /\ (forall (s : MethodInvoker.world * MethodInvoker.t) (values : Values),
           isValid (MethodInvoker.method_ (snd s)) = true ->
           MethodInvoker.withArguments (build := debug) values s
           = MethodInvoker.withArguments (build := release) values s
           /\ MethodInvoker.storeResultsTo (build := debug) values s
             = MethodInvoker.storeResultsTo (build := release) values s
           /\ MethodInvoker.dontExpectReply (build := debug) s
             = MethodInvoker.dontExpectReply (build := release) s)
     /\ (forall (s : MethodInvoker.world * MethodInvoker.t) (step : MethodInvoker.step),
           isValid (MethodInvoker.method_ (snd s)) = true ->
           isValid (MethodInvoker.method_
                      (snd (snd (MethodInvoker.run (build := debug) step s)))) = true))
  (* AsyncMethodInvoker *)
  /\ ((forall (name : string) (w : AsyncMethodInvoker.world),
         isValid (AsyncMethodInvoker.method_ (AsyncMethodInvoker.ctor name w)) = false)
     /\ (forall (U : Type) (s : AsyncMethodInvoker.world * AsyncMethodInvoker.t)
                (values : Values) (Args : list cxx_type)
                (callback : option Error -> Values -> Exec U unit),
           isValid (AsyncMethodInvoker.method_ (snd s)) = false ->
           AsyncMethodInvoker.withArguments (build := debug) values s = (Aborted, s)
           /\ AsyncMethodInvoker.uponReplyInvoke (build := debug) Args callback s = (Aborted, s)
           /\ AsyncMethodInvoker.getResultAsFuture (build := debug) Args s = (Aborted, s))
     /\ (forall (s : AsyncMethodInvoker.world * AsyncMethodInvoker.t) (usec : Z),
           AsyncMethodInvoker.withTimeout usec s
           = (Normal tt, (fst s, AsyncMethodInvoker.set_timeout_ usec (snd s))))
     /\ (forall (s s' : AsyncMethodInvoker.world * AsyncMethodInvoker.t)
                (interfaceName : string),
           AsyncMethodInvoker.onInterface interfaceName s = (Normal tt, s') ->
           isValid (AsyncMethodInvoker.method_ (snd s')) = true)
     /\ (forall (U : Type) (s : AsyncMethodInvoker.world * AsyncMethodInvoker.t)
                (values : Values) (Args : list cxx_type)
                (callback : option Error -> Values -> Exec U unit),
           isValid (AsyncMethodInvoker.method_ (snd s)) = true ->
           AsyncMethodInvoker.withArguments (build := debug) values s
           = AsyncMethodInvoker.withArguments (build := release) values s
           /\ AsyncMethodInvoker.uponReplyInvoke (build := debug) Args callback s
             = AsyncMethodInvoker.uponReplyInvoke (build := release) Args callback s
           /\ AsyncMethodInvoker.getResultAsFuture (build := debug) Args s
             = AsyncMethodInvoker.getResultAsFuture (build := release) Args s)
     /\ (forall (s : AsyncMethodInvoker.world * AsyncMethodInvoker.t)
                (values : Values) (usec : Z),
           isValid (AsyncMethodInvoker.method_ (snd s)) = true ->
           isValid (AsyncMethodInvoker.method_
                      (snd (snd (AsyncMethodInvoker.withArguments (build := debug) values s))))
           = true
           /\ isValid (AsyncMethodInvoker.method_
                        (snd (snd (AsyncMethodInvoker.withTimeout usec s)))) = true))
  (* SignalSubscriber *)
  /\ ((forall (name : string) (w : SignalSubscriber.world),
         SignalSubscriber.empty
           (SignalSubscriber.interfaceName_ (SignalSubscriber.ctor name w)) = true)
     /\ (forall (U : Type) (s : SignalSubscriber.world * SignalSubscriber.t)
                (callback : Callback U),
           SignalSubscriber.empty (SignalSubscriber.interfaceName_ (snd s)) = true ->
           SignalSubscriber.call (build := debug) callback s = (Aborted, s))
     /\ (forall (s : SignalSubscriber.world * SignalSubscriber.t) (interfaceName : string),
           snd (SignalSubscriber.onInterface interfaceName s)
           = (fst s, {| SignalSubscriber.signalName_ := SignalSubscriber.signalName_ (snd s);
                        SignalSubscriber.interfaceName_ := interfaceName |}))
     /\ (forall (U : Type) (s : SignalSubscriber.world * SignalSubscriber.t)
                (callback : Callback U),
           SignalSubscriber.empty (SignalSubscriber.interfaceName_ (snd s)) = false ->
           SignalSubscriber.call (build := debug) callback s
           = SignalSubscriber.call (build := release) callback s)).
Proof.
  intros Hdefault Hsignal Hmethod Hserialize Hnoreply.
  split; [|split; [|split]].
  - (* SignalEmitter *)
    split; [intros; exact Hdefault|].
    split; [|split; [|split]].
    + intros [w self] args Hinvalid. simpl in Hinvalid.
      unfold SignalEmitter.withArguments. exec_unfold. rewrite Hinvalid. reflexivity.
    + intros [w self] [w' self'] interfaceName.
      unfold SignalEmitter.onInterface. exec_unfold.
      specialize (Hsignal interfaceName (SignalEmitter.signalName_ self) (peer w)).
      destruct (createSignal interfaceName (SignalEmitter.signalName_ self) (peer w))
        as [[signal|x|] o]; simpl; intros Heq; inversion Heq; subst. exact Hsignal.
    + intros [w self] args Hvalid. simpl in Hvalid.
      unfold SignalEmitter.withArguments. exec_unfold. rewrite Hvalid. reflexivity.
    + intros [w self] [interfaceName | args] Hvalid; simpl in Hvalid; simpl.
      * unfold SignalEmitter.onInterface. exec_unfold.
        specialize (Hsignal interfaceName (SignalEmitter.signalName_ self) (peer w)).
        destruct (createSignal interfaceName (SignalEmitter.signalName_ self) (peer w))
          as [[signal|x|] o]; simpl; auto.
      * unfold SignalEmitter.withArguments. exec_unfold. rewrite Hvalid.
        specialize (Hserialize (SignalEmitter.signal_ self) args).
        destruct (serialize_pack (SignalEmitter.signal_ self) args) as [signal [e|]];
          simpl in *; congruence.
  - (* MethodInvoker *)
    split; [intros; exact Hdefault|].
    split; [|split; [|split; [|split]]].
    + intros [w self] values Hinvalid. simpl in Hinvalid.
      unfold MethodInvoker.withArguments, MethodInvoker.storeResultsTo,
        MethodInvoker.dontExpectReply.
      exec_unfold. rewrite Hinvalid. auto.
    + intros [w self] usec. reflexivity.
    + intros [w self] [w' self'] interfaceName.
      unfold MethodInvoker.onInterface. exec_unfold.
      specialize (Hmethod interfaceName (MethodInvoker.methodName_ self) (peer w)).
      destruct (createMethodCall interfaceName (MethodInvoker.methodName_ self) (peer w))
        as [[method|x|] p]; simpl; intros Heq; inversion Heq; subst. exact Hmethod.
    + intros [w self] values Hvalid. simpl in Hvalid.
      unfold MethodInvoker.withArguments, MethodInvoker.storeResultsTo,
        MethodInvoker.dontExpectReply.
      exec_unfold. rewrite Hvalid. auto.
    + intros [w self] step Hvalid. simpl in Hvalid.
      destruct step as [interfaceName | usec | timeout | args | outs |]; simpl.
      * unfold MethodInvoker.onInterface. exec_unfold.
        specialize (Hmethod interfaceName (MethodInvoker.methodName_ self) (peer w)).
        destruct (createMethodCall interfaceName (MethodInvoker.methodName_ self) (peer w))
          as [[method|x|] p]; simpl; auto.
      * exact Hvalid.
      * exact Hvalid.
      * unfold MethodInvoker.withArguments. exec_unfold. rewrite Hvalid.
        specialize (Hserialize (MethodInvoker.method_ self) args).
        destruct (serialize_pack (MethodInvoker.method_ self) args) as [method [e|]];
          simpl in *; congruence.
      * unfold MethodInvoker.storeResultsTo. exec_unfold. rewrite Hvalid.
        repeat break_match; simpl; assumption.
      * unfold MethodInvoker.dontExpectReply. exec_unfold. rewrite Hvalid. simpl.
        rewrite Hnoreply. exact Hvalid.
  - (* AsyncMethodInvoker *)
    split; [intros; exact Hdefault|].
    split; [|split; [|split; [|split]]].
    + intros U [w self] values Args callback Hinvalid. simpl in Hinvalid.
      unfold AsyncMethodInvoker.getResultAsFuture, AsyncMethodInvoker.withArguments,
        AsyncMethodInvoker.uponReplyInvoke.
      exec_unfold. rewrite Hinvalid. auto.
    + intros [w self] usec. reflexivity.
    + intros [w self] [w' self'] interfaceName.
      unfold AsyncMethodInvoker.onInterface. exec_unfold.
      specialize (Hmethod interfaceName (AsyncMethodInvoker.methodName_ self) (peer w)).
      destruct (createMethodCall interfaceName (AsyncMethodInvoker.methodName_ self) (peer w))
        as [[method|x|] p]; simpl; intros Heq; inversion Heq; subst. exact Hmethod.
    + intros U [w self] values Args callback Hvalid. simpl in Hvalid.
      unfold AsyncMethodInvoker.getResultAsFuture, AsyncMethodInvoker.withArguments,
        AsyncMethodInvoker.uponReplyInvoke.
      exec_unfold. rewrite Hvalid. auto.
    + intros [w self] values usec Hvalid. simpl in Hvalid.
      split; [|exact Hvalid].
      unfold AsyncMethodInvoker.withArguments. exec_unfold. rewrite Hvalid.
      specialize (Hserialize (AsyncMethodInvoker.method_ self) values).
      destruct (serialize_pack (AsyncMethodInvoker.method_ self) values) as [method [e|]];
        simpl in *; congruence.
  - (* SignalSubscriber *)
    split; [reflexivity|].
    split; [|split].
    + intros U [w self] callback Hempty. simpl in Hempty.
      unfold SignalSubscriber.call. exec_unfold. rewrite Hempty. reflexivity.
    + intros [w self] interfaceName. reflexivity.
    + intros U [w self] callback Hnonempty. simpl in Hnonempty.
      unfold SignalSubscriber.call. exec_unfold. rewrite Hnonempty. reflexivity.
Qed.

End AssertionFacts.

(** *** Runs on the instance *)

#[local] Existing Instance Model.messages.
#[local] Existing Instance Model.object.
#[local] Existing Instance Model.proxy.
#[local] Existing Instance Model.declarations.

(** In a debug build, [proxy.callMethod("sendDataSignals").withArguments(42)]
    aborts in [withArguments]. *)
Lemma withArguments_before_onInterface_aborts :
  MethodInvoker.withArguments (build := debug) [Model.VInt32 42]
    (Model.fresh tt, MethodInvoker.ctor "sendDataSignals" (Model.fresh tt))
  = (Aborted, (Model.fresh tt, MethodInvoker.ctor "sendDataSignals" (Model.fresh tt))).
Proof.
  assert (Hserialize : forall (m : Message) (values : Values),
             isValid (fst (serialize_pack m values)) = isValid m).
  { intros m values. simpl. unfold Model.append.
    destruct (Model.valid m) eqn:E; simpl; [reflexivity | exact E]. }
  assert (Hnoreply : forall m : Message, isValid (Message_dontExpectReply m) = isValid m).
  { intros m. reflexivity. }
  exact (proj1
           (proj1 (proj2 (proj1 (proj2
              (assertions_hold_after_onInterface
                 eq_refl (fun _ _ _ => eq_refl) (fun _ _ _ => eq_refl)
                 Hserialize Hnoreply))))
              (Model.fresh tt, MethodInvoker.ctor "sendDataSignals" (Model.fresh tt))
              [Model.VInt32 42] eq_refl)).
Defined.

(** C8: in a debug build the statement
    [proxy.callMethod("concatenateTwoStrings").withTimeout(5000).onInterface("org.sdbuscpp.perftests");]
    runs [withTimeout] before [onInterface], trips no assertion, and calls the
    method with that timeout; and
    [proxy.uponSignal("dataSignal").onInterface("").call(callback)] aborts
    in [call] although [onInterface] ran first. *)
Lemma withTimeout_needs_no_onInterface :
  MethodInvoker.call_statement (build := debug) "concatenateTwoStrings"
    [MethodInvoker.WithTimeout 5000; MethodInvoker.OnInterface "org.sdbuscpp.perftests"]
    (Model.fresh tt)
  = (Normal tt,
     {| uncaught_exceptions := 0;
        peer := tt;
        calls := [(Model.create "org.sdbuscpp.perftests" "concatenateTwoStrings", 5000%Z)] |})
  /\ fst (bind (SignalSubscriber.onInterface "")
            (fun _ => SignalSubscriber.call (build := debug)
                        (PureCallback [TString] Model.keep_pure_arguments))
            (Model.fresh tt, SignalSubscriber.ctor "dataSignal" (Model.fresh tt)))
    = Aborted.
Proof. split; reflexivity. Qed.

End AssertionFacts.

(** * Further properties *)

(** ** The signature engine *)

Module SignatureMore.
Import TypeTraits SignatureSyntax SignatureFacts.

(** X1. [operator+] on two [std::array]s returns their concatenation: the
    elements of [lhs] in order, then those of [rhs]; the length is the sum
    of the lengths and no value-initialised element of [result] is left. *)
Theorem array_plus_is_concatenation {T : Type} (zero : T) (lhs rhs : list T) :
  array_plus zero lhs rhs = lhs ++ rhs
  /\ length (array_plus zero lhs rhs) = (length lhs + length rhs)%nat
  /\ (forall (i : nat) (x : T),
        lhs !! i = Some x -> array_plus zero lhs rhs !! i = Some x)
  /\ (forall i : nat, array_plus zero lhs rhs !! (length lhs + i)%nat = rhs !! i).
Proof.
  rewrite array_plus_app. split; [reflexivity|].
  split; [apply length_app|]. split.
  - intros i x Hi. apply lookup_app_l_Some. exact Hi.
  - intros i. rewrite lookup_app_r by lia.
    f_equal. lia.
Qed.

(** X2. The signature of [Struct<T1, ..., Tn>] is the concatenation of the
    signatures of its fields between parentheses: the signature of the
    tuple of the same types, parenthesised. *)
Theorem struct_signature_is_parenthesised (first : cxx_type) (others : list cxx_type) :
  signature_of (TStruct first others)
  = ["("%char] ++ concat (List.map signature_of (first :: others)) ++ [")"%char]
  /\ signature_of (TStruct first others)
    = ["("%char] ++ signature_of (TTuple (first :: others)) ++ [")"%char].
Proof.
  rewrite signature_of_tuple. split; apply signature_of_struct.
Qed.










(** X4. A type whose [is_trivial_dbus_type] is true has a signature of
    exactly one type code, and its [is_valid] is true. *)
Theorem trivial_types_have_one_code (t : cxx_type) :
  is_trivial_dbus_type t = true ->
  (exists c : ascii, signature_of t = [c]) /\ is_valid t = true.
Proof.
  induction t; simpl; intros Htrivial; try discriminate; eauto.
  destruct underlying; simpl; eauto.
Qed.

Lemma trivial_types_have_one_code_at_const_double :
  (exists c : ascii, signature_of (TConst TDouble) = [c])
  /\ is_valid (TConst TDouble) = true.
Proof. apply trivial_types_have_one_code. reflexivity. Defined.

Lemma signature_of_without_cvref (types : list cxx_type) :
  List.map signature_of (List.map remove_cvref types) = List.map signature_of types.
Proof.
  induction types as [|t types IH]; simpl; [reflexivity|].
  rewrite signature_of_remove_cvref, IH. reflexivity.
Qed.

Lemma input_signature_of_arguments (f : function_type) :
  signature_of_function_input_arguments f
  = concat (List.map signature_of (function_arguments f)).
Proof.
  unfold signature_of_function_input_arguments, tuple_of_function_input_arg_types.
  rewrite signature_of_tuple, signature_of_decayed_pack. reflexivity.
Qed.

(** X5. The input signature of a function type depends on its parameter
    types only up to references and cv-qualifiers, and not on its result
    or on a leading error or [Result] parameter: two function types whose
    parameters are the same once those are removed have the same input
    signature, as an array and as a string. *)
Theorem input_signature_ignores_qualifiers (f g : function_type) :
  List.map remove_cvref (function_arguments f)
  = List.map remove_cvref (function_arguments g) ->
  signature_of_function_input_arguments f = signature_of_function_input_arguments g
  /\ signature_of_function_input_arguments_v f = signature_of_function_input_arguments_v g.
Proof.
  intros Hsame.
  assert (Heq : signature_of (tuple_of_function_input_arg_types f)
                = signature_of (tuple_of_function_input_arg_types g)).
  { change (signature_of_function_input_arguments f
            = signature_of_function_input_arguments g).
    rewrite !input_signature_of_arguments.
    rewrite <- (signature_of_without_cvref (function_arguments f)).
    rewrite <- (signature_of_without_cvref (function_arguments g)).
    rewrite Hsame. reflexivity. }
  split; [exact Heq|].
  unfold signature_of_function_input_arguments_v. rewrite Heq. reflexivity.
Qed.

(** The lambda registered as [sendDataSignals] takes two [const uint32_t&]:
    its input signature is that of a function of two [uint32_t]. *)
Lemma input_signature_of_sendDataSignals :
  signature_of_function_input_arguments (Function RVoid [TRef (TConst TUint32); TRef (TConst TUint32)])
  = signature_of_function_input_arguments (FunctionWithError [TUint32; TUint32])
  /\ signature_of_function_input_arguments_v
       (Function RVoid [TRef (TConst TUint32); TRef (TConst TUint32)])
    = signature_of_function_input_arguments_v (FunctionWithError [TUint32; TUint32]).
Proof. apply input_signature_ignores_qualifiers. reflexivity. Defined.

(** X6. The value type of the future [getResultAsFuture<Args...>()]
    returns has the signature of the argument list [Args...]: nothing for
    [void], the signature of [T] for the single type [T], the flattened
    signature for a tuple. *)
Theorem future_value_has_the_signature_of_the_outputs (Args : list cxx_type) :
  signature_of_return (future_return Args) = signature_of (TTuple Args)
  /\ signature_of_return (future_return Args) = concat (List.map signature_of Args).
Proof.
  rewrite signature_of_tuple.
  assert (H : signature_of_return (future_return Args) = concat (List.map signature_of Args)).
  { destruct Args as [|T [|T' Ts]].
    - reflexivity.
    - simpl. rewrite app_nil_r. reflexivity.
    - change (future_return (T :: T' :: Ts)) with (RType (TTuple (T :: T' :: Ts))).
      apply signature_of_tuple. }
  split; exact H.
Qed.

(** X7. [value_as_string()] loses nothing of a signature: read back as
    characters, the string it returns for the input or the output arguments
    of a function type is the signature array, which has no NUL before the
    terminator [as_null_terminated] adds. *)
Theorem value_as_string_round_trip (f : function_type) :
  list_ascii_of_string (signature_of_function_input_arguments_v f)
  = signature_of_function_input_arguments f
  /\ list_ascii_of_string (signature_of_function_output_arguments_v f)
    = signature_of_function_output_arguments f
  /\ signature_of_function_output_arguments_v f
    = string_of_list_ascii (signature_of_function_output_arguments f).
Proof.
  assert (Hout : Forall (fun c => c <> Ascii.zero)
                   (signature_of_return (tuple_of_function_output_arg_types f))).
  { destruct (tuple_of_function_output_arg_types f); simpl.
    - constructor.
    - apply signature_of_no_nul. }
  unfold signature_of_function_input_arguments_v, signature_of_function_output_arguments_v,
    signature_of_function_input_arguments, signature_of_function_output_arguments.
  rewrite !string_of_c_str_null_terminated by (first [exact Hout | apply signature_of_no_nul]).
  rewrite !list_ascii_of_string_of_list_ascii. auto.
Qed.

(** X19. A method written in the asynchronous style, whose first parameter
    is a [Result<Rs...>], has the output signature of its results [Rs...]:
    the concatenation of their signatures, which is the output signature of
    the same method written in the synchronous style with the result type
    [std::tuple<Rs...>], and the signature of the value of the future
    [getResultAsFuture<Rs...>()] returns.  A callback with a leading error
    parameter has no output signature. *)
Theorem async_method_has_the_output_signature_of_its_results
    (Results args args' : list cxx_type) :
  signature_of_function_output_arguments (FunctionWithResult Results args)
  = concat (List.map signature_of Results)
  /\ signature_of_function_output_arguments (FunctionWithResult Results args)
    = signature_of_function_output_arguments (Function (RType (TTuple Results)) args')
  /\ signature_of_function_output_arguments (FunctionWithResult Results args)
    = signature_of_return (future_return Results)
  /\ signature_of_function_output_arguments (FunctionWithError args) = []
  /\ is_async_method_v (FunctionWithResult Results args) = Some true
  /\ is_async_method_v (Function (RType (TTuple Results)) args') = Some false.
Proof.
  unfold signature_of_function_output_arguments, tuple_of_function_output_arg_types.
  cbn [result_type signature_of_return].
  rewrite signature_of_tuple.
  split; [reflexivity|]. split; [reflexivity|]. split; [|auto].
  destruct Results as [|T [|T' Ts]].
  - reflexivity.
  - simpl. rewrite app_nil_r. reflexivity.
  - change (future_return (T :: T' :: Ts)) with (RType (TTuple (T :: T' :: Ts))).
    cbn [signature_of_return]. rewrite signature_of_tuple. reflexivity.
Qed.

End SignatureMore.

(** ** The builders *)

Module BuilderMore.
Import TypeTraits Runtime Api ApiMore ExecTactics BuilderFacts.
Local Open Scope Z_scope.

Section MethodInvokerMore.
Context `{build : Build} `{messages : MessageApi}
        `{proxy : !IProxy} `{declarations : Declarations}.
Import MethodInvoker.

Lemma chain_app {Peer Call B : Type}
    (steps steps' : list (Exec (World Peer Call * B) unit)) (s : World Peer Call * B) :
  chain (steps ++ steps') s = bind (chain steps) (fun _ => chain steps') s.
Proof.
  revert s. induction steps as [|step steps IH]; intros s; simpl.
  - unfold bind, ret. reflexivity.
  - unfold bind in *. destruct (step s) as [[[]|x|] s1]; [|reflexivity|reflexivity].
    apply IH.
Qed.

(** No member function changes the count of uncaught exceptions the
    builder sees, or the count it recorded. *)
Lemma MethodInvoker_chain_counts (steps : list step) (w : world) (self : t) :
  uncaught_exceptions (fst (snd (chain (List.map run steps) (w, self))))
  = uncaught_exceptions w
  /\ exceptions_ (snd (snd (chain (List.map run steps) (w, self)))) = exceptions_ self.
Proof.
  revert w self. induction steps as [|s steps IH]; intros w self; simpl.
  - auto.
  - unfold bind.
    pose proof (proj1 (MethodInvoker_run_calls s w self)) as Hs. revert Hs.
    unfold at_most_one_call.
    destruct (run s (w, self)) as [[[]|x|] [w1 self1]]; simpl;
      intros (Hu & Hx & _); auto.
    destruct (IH w1 self1) as [Hu' Hx']. split; congruence.
Qed.

(** A chain of member functions that return [*this] makes no call. *)
Lemma MethodInvoker_chain_no_call (steps : list step) (w : world) (self : t) :
  forallb returns_this steps = true ->
  no_call w self (chain (List.map run steps) (w, self)).
Proof.
  revert w self. induction steps as [|s steps IH]; intros w self Hthis; simpl.
  - unfold no_call, ret. auto.
  - simpl in Hthis. apply andb_true_iff in Hthis as [Hs Hrest].
    pose proof (proj2 (MethodInvoker_run_calls s w self) Hs) as Hrun. revert Hrun.
    unfold bind, no_call.
    destruct (run s (w, self)) as [[[]|x|] [w1 self1]]; auto.
    intros (Hu & Hx & Hc & Hm).
    specialize (IH w1 self1 Hrest). revert IH. unfold no_call.
    destruct (chain (List.map run steps) (w1, self1)) as [r [w2 self2]].
    intros (Hu' & Hx' & Hc' & Hm'). repeat split; congruence.
Qed.

Lemma with_uncaught_same {Peer Call : Type} (w : World Peer Call) :
  with_uncaught (uncaught_exceptions w) w = w.
Proof. destruct w. reflexivity. Qed.

(** X8. When a member function of the chain throws, the statement
    [proxy.callMethod(name).steps...;] ends with that exception: the
    destructor, which runs during unwinding, makes no call and throws
    nothing, so the program is not terminated and the calls made are those
    made before the throw. *)
Theorem MethodInvoker_step_exception_leaves_statement
    (methodName : string) (steps : list step) (w : world) :
  match chain (List.map run steps) (w, ctor methodName w) with
  | (Thrown x, (w', _)) => call_statement methodName steps w = (Thrown x, w')
  | _ => True
  end.
Proof.
  unfold call_statement, statement.
  pose proof (MethodInvoker_chain_counts steps w (ctor methodName w)) as Hcounts.
  revert Hcounts.
  destruct (chain (List.map run steps) (w, ctor methodName w)) as [[[]|x|] [w' self']];
    simpl; auto.
  intros [Hu Hx].
  rewrite MethodInvoker_dtor_suppressed by (right; simpl; lia).
  destruct w'. reflexivity.
Qed.

(** How the statement ends when its chain returned without a call: as
    the destructor's [callMethod] ends. *)
Lemma MethodInvoker_scope_exit_call (w : world) (self : t) :
  methodCalled_ self = false ->
  uncaught_exceptions w = exceptions_ self ->
  (let '(r, s') := dtor (w, self) in (r, fst s'))
  = (discard (fst (callMethod (method_ self) (timeout_ self) (peer w))),
     {| uncaught_exceptions := uncaught_exceptions w;
        peer := snd (callMethod (method_ self) (timeout_ self) (peer w));
        calls := calls w ++ [(method_ self, timeout_ self)] |}).
Proof.
  intros Hm Hu.
  rewrite MethodInvoker_dtor_run, Hm.
  apply Z.eqb_eq in Hu. rewrite Hu. reflexivity.
Qed.

(** X9. Fire and forget: when every member function of the chain returns
    [*this] and the chain returns, no call has been made yet and the
    statement calls [IProxy::callMethod] exactly once, in the destructor on
    scope exit, with the message and the timeout the chain has configured;
    the statement ends as that call ends (its reply dropped) and leaves the
    proxy as the call leaves it.  When [dontExpectReply()] ends such a chain
    and its assertion passes, the one call carries the message marked as
    expecting no reply. *)
Theorem MethodInvoker_fire_and_forget
    (methodName : string) (steps : list step) (w : world) :
  forallb returns_this steps = true ->
  match chain (List.map run steps) (w, ctor methodName w) with
  | (Normal _, (w1, self)) =>
      calls w1 = calls w
      /\ call_statement methodName steps w
        = (discard (fst (callMethod (method_ self) (timeout_ self) (peer w1))),
           {| uncaught_exceptions := uncaught_exceptions w;
              peer := snd (callMethod (method_ self) (timeout_ self) (peer w1));
              calls := calls w ++ [(method_ self, timeout_ self)] |})
      /\ (isValid (method_ self) = true ->
          call_statement methodName (steps ++ [DontExpectReply]) w
          = (discard (fst (callMethod (Message_dontExpectReply (method_ self))
                             (timeout_ self) (peer w1))),
             {| uncaught_exceptions := uncaught_exceptions w;
                peer := snd (callMethod (Message_dontExpectReply (method_ self))
                               (timeout_ self) (peer w1));
                calls := calls w
                         ++ [(Message_dontExpectReply (method_ self), timeout_ self)] |}))
  | _ => True
  end.
Proof.
  intros Hthis.
  pose proof (MethodInvoker_chain_no_call steps w (ctor methodName w) Hthis) as Hno.
  revert Hno. unfold no_call, call_statement, statement.
  rewrite map_app, chain_app. unfold bind at 1.
  destruct (chain (List.map run steps) (w, ctor methodName w)) as [[[]|x|] [w1 self1]];
    auto.
  intros (Hu & Hx & Hc & Hm).
  assert (Hm' : methodCalled_ self1 = false) by (rewrite Hm; reflexivity).
  assert (Hu' : uncaught_exceptions w1 = exceptions_ self1)
    by (rewrite Hu, Hx; reflexivity).
  split; [exact Hc|]. split.
  - rewrite MethodInvoker_scope_exit_call by assumption.
    rewrite Hc, Hu. reflexivity.
  - intros Hvalid. simpl.
    unfold dontExpectReply. exec_unfold. rewrite Hvalid.
    destruct NDEBUG; simpl;
      rewrite (MethodInvoker_scope_exit_call w1
                 (set_method_ (Message_dontExpectReply (method_ self1)) self1))
        by assumption;
      simpl; rewrite Hc, Hu; reflexivity.
Qed.

(** X10. [withTimeout] may stand before or after [onInterface] and
    [withArguments]: both orders end the same way and leave the same world,
    and the same builder when they return.  Of two [withTimeout] the later
    one counts. *)
Theorem withTimeout_placement (usec : Z) (s : world * t) :
  (forall interfaceName : string,
      let a := bind (withTimeout usec) (fun _ => onInterface interfaceName) s in
      let b := bind (onInterface interfaceName) (fun _ => withTimeout usec) s in
      fst a = fst b /\ fst (snd a) = fst (snd b) /\ (fst a = Normal tt -> a = b))
  /\ (forall args : Values,
        let a := bind (withTimeout usec) (fun _ => withArguments args) s in
        let b := bind (withArguments args) (fun _ => withTimeout usec) s in
        fst a = fst b /\ fst (snd a) = fst (snd b) /\ (fst a = Normal tt -> a = b))
  /\ (forall usec' : Z,
        bind (withTimeout usec') (fun _ => withTimeout usec) s = withTimeout usec s).
Proof.
  destruct s as [w self]. split; [|split].
  - intros interfaceName. unfold onInterface, withTimeout. exec_unfold.
    destruct (createMethodCall interfaceName (methodName_ self) (peer w))
      as [[method|x|] p]; simpl; repeat split; auto; discriminate.
  - intros args. unfold withArguments, withTimeout. exec_unfold.
    destruct NDEBUG; simpl;
      [|destruct (isValid (method_ self)); simpl];
      try destruct (serialize_pack (method_ self) args) as [method [e|]]; simpl;
      repeat split; auto; discriminate.
  - intros usec'. reflexivity.
Qed.

End MethodInvokerMore.

(** *** Durations that are whole microseconds *)

Section WholeMicroseconds.
Context `{messages : MessageApi} `{proxy : !IProxy} `{declarations : Declarations}.
Import chrono.

Lemma CF_of_whole_microseconds (d : duration) (k : Z) :
  Z.pos (period_num d) * 1000000 = Z.pos (period_den d) * k ->
  fst (CF d) = k.
Proof.
  intros Hk. unfold CF, ratio_divide_micro. simpl fst.
  assert (Hpos : 0 < k) by nia.
  rewrite Z.mul_1_r, Hk.
  replace (Z.gcd (Z.pos (period_den d) * k) (Z.pos (period_den d)))
    with (Z.pos (period_den d)).
  - rewrite Z.mul_comm. apply Z.div_mul. lia.
  - rewrite Z.gcd_comm. symmetry.
    apply Z.divide_gcd_iff; [lia|]. exists k. ring.
Qed.

(** X11. For a non-negative duration whose period is a whole number [k] of
    microseconds (seconds, milliseconds, minutes, ...), and whose count
    times [k] fits 64 bits, the duration overload of [withTimeout] does what
    the microsecond overload does with [count * k]: nothing is truncated. *)
Theorem withTimeout_duration_of_whole_microseconds (d : duration) (k : Z) :
  Z.pos (period_num d) * 1000000 = Z.pos (period_den d) * k ->
  0 <= count d ->
  in_int64 (count d * k) ->
  (forall s : MethodInvoker.world * MethodInvoker.t,
      MethodInvoker.withTimeout_duration d s = MethodInvoker.withTimeout (count d * k) s)
  /\ (forall s : AsyncMethodInvoker.world * AsyncMethodInvoker.t,
        AsyncMethodInvoker.withTimeout_duration d s
        = AsyncMethodInvoker.withTimeout (count d * k) s).
Proof.
  intros Hk Hcount Hrange.
  assert (Hcast : static_cast_uint64 (duration_cast_microseconds d) = count d * k).
  { pose proof (CF_of_whole_microseconds d k Hk) as HCF.
    unfold in_int64 in Hrange.
    rewrite TimeoutFacts.stored_microseconds.
    - unfold whole_microseconds. rewrite Hk.
      replace (count d * (Z.pos (period_den d) * k))
        with (count d * k * Z.pos (period_den d)) by ring.
      rewrite Z.quot_mul by lia.
      apply Z.mod_small. nia.
    - unfold conversion_fits. rewrite HCF.
      destruct (CR_is_unsigned (rep d)); [split; [exact Hcount | lia] | exact Hrange]. }
  split; intros s.
  - unfold MethodInvoker.withTimeout_duration. rewrite Hcast. reflexivity.
  - unfold AsyncMethodInvoker.withTimeout_duration. rewrite Hcast. reflexivity.
Qed.

End WholeMicroseconds.

(** *** AsyncMethodInvoker *)

Section AsyncMore.
Context `{build : Build} `{messages : MessageApi}
        `{proxy : !IProxy} `{declarations : Declarations}.



End AsyncMore.

(** *** The generated adaptor *)

Section AdaptorMore.
Context `{build : Build} `{messages : MessageApi} `{object : !IObject} `{packs : !Packs}.
Import perftests_adaptor.

(** X13. [perftests_adaptor::emitDataSignal(data)] emits at most one
    signal.  When the signal [dataSignal] of [org.sdbuscpp.perftests] is
    created and [data] is serialized into it, that signal is emitted once
    and [emitDataSignal] ends as [IObject::emitSignal] ends; when creating
    or serializing throws, nothing is emitted and the exception leaves
    [emitDataSignal]; when the assertion of [withArguments] fails, nothing
    is emitted. *)
Theorem emitDataSignal_emits_the_serialized_signal (data : string) (w : SignalEmitter.world) :
  let after := emitDataSignal data w in
  match createSignal "org.sdbuscpp.perftests" "dataSignal" (peer w) with
  | (Normal signal, o) =>
      if NDEBUG || isValid signal then
        match serialize_pack signal (of_string data) with
        | (signal', None) =>
            calls (snd after) = calls w ++ [signal']
            /\ fst after = fst (emitSignal signal' o)
        | (_, Some e) =>
            calls (snd after) = calls w /\ fst after = Thrown (SdbusError e)
        end
      else calls (snd after) = calls w /\ fst after = Aborted
  | (Thrown x, _) => calls (snd after) = calls w /\ fst after = Thrown x
  | (Aborted, _) => calls (snd after) = calls w /\ fst after = Aborted
  end.
Proof.
  unfold emitDataSignal, SignalEmitter.emit_statement, statement, INTERFACE_NAME.
  simpl chain. unfold SignalEmitter.run, SignalEmitter.onInterface,
    SignalEmitter.withArguments, SignalEmitter.dtor.
  exec_unfold.
  destruct (createSignal "org.sdbuscpp.perftests" "dataSignal" (peer w))
    as [[signal|x|] o]; simpl.
  - destruct NDEBUG; simpl; [|destruct (isValid signal); simpl].
    + destruct (serialize_pack signal (of_string data)) as [signal' [e|]]; simpl.
      * replace (uncaught_exceptions w + 1 =? uncaught_exceptions w)%Z with false
          by (symmetry; apply Z.eqb_neq; lia).
        simpl. auto.
      * rewrite Z.eqb_refl. simpl.
        destruct (emitSignal signal' o) as [r o']. auto.
    + destruct (serialize_pack signal (of_string data)) as [signal' [e|]]; simpl.
      * replace (uncaught_exceptions w + 1 =? uncaught_exceptions w)%Z with false
          by (symmetry; apply Z.eqb_neq; lia).
        simpl. auto.
      * rewrite Z.eqb_refl. simpl.
        destruct (emitSignal signal' o) as [r o']. auto.
    + auto.
  - replace (uncaught_exceptions w + 1 =? uncaught_exceptions w)%Z with false
      by (symmetry; apply Z.eqb_neq; lia).
    simpl. auto.
  - auto.
Qed.

End AdaptorMore.

(** *** Property accessors *)

Section PropertyMore.
Context `{build : Build} `{messages : MessageApi}
        `{proxy : !IProxy} `{declarations : Declarations} `{packs : !Packs}.
Import MethodInvoker.

Lemma MethodInvoker_storeResultsTo_returns (outs : Values) (s : world * t) :
  uncaught_exceptions (fst (snd (storeResultsTo outs s))) = uncaught_exceptions (fst s)
  /\ exceptions_ (snd (snd (storeResultsTo outs s))) = exceptions_ (snd s)
  /\ match fst (storeResultsTo outs s) with
     | Normal _ => methodCalled_ (snd (snd (storeResultsTo outs s))) = true
     | _ => True
     end.
Proof.
  destruct s as [w self]. unfold storeResultsTo. exec_unfold.
  repeat break_match; auto.
Qed.

(** A statement that ends in [storeResultsTo] ends as [storeResultsTo]
    does: the destructor adds nothing. *)
Lemma MethodInvoker_store_statement
    (methodName : string) (steps : list step) (outs : Values) (w : world) :
  forallb returns_this steps = true ->
  statement_returning (ctor methodName) (List.map run steps) (storeResultsTo outs) dtor w
  = match chain (List.map run steps) (w, ctor methodName w) with
    | (Normal _, s1) => (fst (storeResultsTo outs s1), fst (snd (storeResultsTo outs s1)))
    | (Thrown x, s1) => (Thrown x, fst s1)
    | (Aborted, s1) => (Aborted, fst s1)
    end.
Proof.
  intros Hthis.
  pose proof (MethodInvoker_chain_no_call steps w (ctor methodName w) Hthis) as Hno.
  revert Hno. unfold no_call, statement_returning, bind.
  destruct (chain (List.map run steps) (w, ctor methodName w)) as [[[]|x|] [w1 self1]].
  - intros (Hu & Hx & Hc & Hm).
    pose proof (MethodInvoker_storeResultsTo_returns outs (w1, self1)) as Hs. revert Hs.
    destruct (storeResultsTo outs (w1, self1)) as [[outs'|x|] [w2 self2]]; simpl.
    + intros (_ & _ & Hcalled).
      rewrite MethodInvoker_dtor_suppressed by (left; exact Hcalled). reflexivity.
    + intros (Hu2 & Hx2 & _).
      rewrite MethodInvoker_dtor_suppressed by (right; simpl in *; lia).
      simpl. f_equal. destruct w2. reflexivity.
    + reflexivity.
  - intros (Hu & Hx & Hc & Hm). simpl in *.
    rewrite MethodInvoker_dtor_suppressed by (right; simpl; lia).
    simpl. f_equal. destruct w1. reflexivity.
  - reflexivity.
Qed.

(** The call a property accessor makes: [callMethod(name)] on the
    interface [org.freedesktop.DBus.Properties] with [args], results stored
    to [outs]. *)
Lemma property_call (methodName : string) (args outs : Values) (w : world) :
  let after :=
    statement_returning (ctor methodName)
      [onInterface "org.freedesktop.DBus.Properties"; withArguments args]
      (storeResultsTo outs) dtor w in
  (length (calls (snd after)) <= S (length (calls w)))%nat
  /\ match fst after with
     | Normal results =>
         exists method p reply p',
           createMethodCall "org.freedesktop.DBus.Properties" methodName (peer w)
           = (Normal method, p)
           /\ snd (serialize_pack method args) = None
           /\ calls (snd after)
             = calls w ++ [(fst (serialize_pack method args), timeout_default)]
           /\ callMethod (fst (serialize_pack method args)) timeout_default p
             = (Normal reply, p')
           /\ deserialize_pack reply outs = (results, None)
     | _ => True
     end.
Proof.
  change [onInterface "org.freedesktop.DBus.Properties"; withArguments args]
    with (List.map run [OnInterface "org.freedesktop.DBus.Properties"; WithArguments args]).
  rewrite MethodInvoker_store_statement by reflexivity.
  simpl. unfold onInterface, withArguments, storeResultsTo. exec_unfold.
  destruct (createMethodCall "org.freedesktop.DBus.Properties" methodName (peer w))
    as [[method|x|] p]; simpl. 2, 3: (split; [lia | exact I]).
  destruct NDEBUG; simpl; [|destruct (isValid method); simpl];
    try (destruct (serialize_pack method args) as [method' [e|]] eqn:Hser; simpl);
    try (destruct (isValid method'); simpl);
    try (destruct (callMethod method' timeout_default p) as [[reply|x|] p'] eqn:Hcall;
         simpl);
    try (destruct (deserialize_pack reply outs) as [results [e|]] eqn:Hread; simpl);
    (split; [rewrite ?length_app; simpl; lia | try exact I]);
    exists method, p, reply, p'; rewrite Hser; simpl; auto.
Qed.

(** X14. [PropertyGetter::onInterface] and
    [AllPropertiesGetter::onInterface] make at most one method call: the
    inner [MethodInvoker] calls in [storeResultsTo] and its destructor does
    not call again.  When they return, the one call was [Get] (with the
    interface and property names) or [GetAll] (with the interface name) on
    the interface [org.freedesktop.DBus.Properties], with no timeout set,
    and the result is what the reply deserializes to, starting from a
    default-constructed [Variant] or map. *)
Theorem property_getters_call_once
    (propertyName interfaceName : string) (w : world) :
  (let after :=
     PropertyGetter.onInterface interfaceName (PropertyGetter.ctor propertyName) w in
   let args := pack_app (of_string interfaceName) (of_string propertyName) in
   (length (calls (snd after)) <= S (length (calls w)))%nat
   /\ match fst after with
      | Normal var =>
          exists method p reply p',
            createMethodCall "org.freedesktop.DBus.Properties" "Get" (peer w)
            = (Normal method, p)
            /\ snd (serialize_pack method args) = None
            /\ calls (snd after)
              = calls w ++ [(fst (serialize_pack method args), timeout_default)]
            /\ callMethod (fst (serialize_pack method args)) timeout_default p
              = (Normal reply, p')
            /\ deserialize_pack reply (default_tuple [TVariant]) = (var, None)
      | _ => True
      end)
  /\ (let after := AllPropertiesGetter.onInterface interfaceName w in
     let args := of_string interfaceName in
     (length (calls (snd after)) <= S (length (calls w)))%nat
     /\ match fst after with
        | Normal props =>
            exists method p reply p',
              createMethodCall "org.freedesktop.DBus.Properties" "GetAll" (peer w)
              = (Normal method, p)
              /\ snd (serialize_pack method args) = None
              /\ calls (snd after)
                = calls w ++ [(fst (serialize_pack method args), timeout_default)]
              /\ callMethod (fst (serialize_pack method args)) timeout_default p
                = (Normal reply, p')
              /\ deserialize_pack reply (default_tuple [TMap TString TVariant])
                = (props, None)
        | _ => True
        end).
Proof.
  split.
  - exact (property_call "Get"
             (pack_app (of_string interfaceName) (of_string propertyName))
             (default_tuple [TVariant]) w).
  - exact (property_call "GetAll" (of_string interfaceName)
             (default_tuple [TMap TString TVariant]) w).
Qed.

(** X15. [PropertySetter::toValue] on a builder whose [interfaceName_] is
    null aborts a debug build in its assertion (a release build goes on to
    dereference the null pointer).  After [onInterface], when the call
    [Set] on [org.freedesktop.DBus.Properties] is created valid and the
    interface name, the property name and the value are serialized into it,
    [toValue(value)] calls [IProxy::callMethod] exactly once, in the
    destructor of its [MethodInvoker], with that message and no timeout set;
    it ends as that call ends and leaves the proxy as the call leaves it.
    [toValue(value, dont_expect_reply)] does the same with the message
    marked as expecting no reply. *)
Theorem PropertySetter_toValue_calls_Set_once (propertyName : string) (value : Values) :
  (forall self : PropertySetter.t,
      PropertySetter.interfaceName_ self = None ->
      PropertySetter.toValue (build := debug) value self = Some std_abort
      /\ PropertySetter.toValue_dont_expect_reply (build := debug) value self
        = Some std_abort
      /\ PropertySetter.toValue (build := release) value self = None
      /\ PropertySetter.toValue_dont_expect_reply (build := release) value self = None)
  /\ (forall (interfaceName : string) (w : world) (method method' : Message) (p : Proxy),
        createMethodCall "org.freedesktop.DBus.Properties" "Set" (peer w)
        = (Normal method, p) ->
        isValid method = true ->
        serialize_pack method
          (pack_app (of_string interfaceName) (pack_app (of_string propertyName) value))
        = (method', None) ->
        isValid method' = true ->
        exists set set' : Exec world unit,
          PropertySetter.toValue value
            (PropertySetter.onInterface interfaceName (PropertySetter.ctor propertyName))
          = Some set
          /\ PropertySetter.toValue_dont_expect_reply value
               (PropertySetter.onInterface interfaceName (PropertySetter.ctor propertyName))
            = Some set'
          /\ set w
            = (discard (fst (callMethod method' timeout_default p)),
               {| uncaught_exceptions := uncaught_exceptions w;
                  peer := snd (callMethod method' timeout_default p);
                  calls := calls w ++ [(method', timeout_default)] |})
          /\ set' w
            = (discard (fst (callMethod (Message_dontExpectReply method')
                               timeout_default p)),
               {| uncaught_exceptions := uncaught_exceptions w;
                  peer := snd (callMethod (Message_dontExpectReply method')
                                 timeout_default p);
                  calls := calls w
                           ++ [(Message_dontExpectReply method', timeout_default)] |})).
Proof.
  split.
  { intros self Hnull.
    unfold PropertySetter.toValue, PropertySetter.toValue_dont_expect_reply.
    rewrite Hnull. auto. }
  intros interfaceName w method method' p Hcreate Hvalid Hser Hvalid'.
  eexists. eexists. split; [reflexivity|]. split; [reflexivity|].
  unfold call_statement, statement. simpl chain.
  unfold run, onInterface, withArguments, dontExpectReply, dtor.
  exec_unfold. rewrite Hcreate. simpl.
  destruct NDEBUG; simpl;
    repeat (first [rewrite Hvalid | rewrite Hser | rewrite Hvalid' | rewrite Z.eqb_refl];
            simpl);
    destruct (callMethod method' timeout_default p) as [[reply|x|] p1];
    destruct (callMethod (Message_dontExpectReply method') timeout_default p)
      as [[reply'|x'|] p2];
    simpl; auto.
Qed.

End PropertyMore.

(** *** SignalSubscriber *)

Section SignalSubscriberMore.
Context `{build : Build} `{messages : MessageApi}
        `{proxy : !IProxy} `{declarations : Declarations}.

Lemma SignalSubscriber_onInterface_chain (names : list string) (interfaceName : string)
    (w : SignalSubscriber.world) (self : SignalSubscriber.t) :
  chain (List.map SignalSubscriber.onInterface (names ++ [interfaceName])) (w, self)
  = (Normal tt,
     (w, {| SignalSubscriber.signalName_ := SignalSubscriber.signalName_ self;
            SignalSubscriber.interfaceName_ := interfaceName |})).
Proof.
  revert self. induction names as [|name names IH]; intros self; simpl.
  - reflexivity.
  - unfold bind at 1. unfold SignalSubscriber.onInterface at 1. simpl.
    rewrite IH. reflexivity.
Qed.

(** X20. On a [SignalSubscriber] for the signal [name],
    [onInterface(...)...onInterface(I).call(callback)] registers one signal
    handler, for the signal [name] on the interface [I] of the last
    [onInterface], and the handler is the lambda built around [callback];
    the expression ends as
    [IProxy::registerSignalHandler] ends.  When [I] is empty a debug build
    aborts in the assertion and registers nothing; a release build registers
    the handler on the empty interface name. *)
Theorem SignalSubscriber_registers_once {U : Type}
    (signalName : string) (names : list string) (interfaceName : string)
    (callback : Callback U) (w : SignalSubscriber.world) :
  let after :=
    expression (SignalSubscriber.ctor signalName)
      (List.map SignalSubscriber.onInterface (names ++ [interfaceName]))
      (SignalSubscriber.call callback) w in
  if NDEBUG || negb (SignalSubscriber.empty interfaceName) then
    calls (snd after) = calls w ++ [(interfaceName, signalName)]
    /\ fst after
      = match fst (registerSignalHandler interfaceName signalName (peer w)) with
        | Normal _ => Normal (signalHandler callback)
        | Thrown x => Thrown x
        | Aborted => Aborted
        end
    /\ peer (snd after) = snd (registerSignalHandler interfaceName signalName (peer w))
  else after = (Aborted, w).
Proof.
  unfold expression, bind. rewrite SignalSubscriber_onInterface_chain.
  unfold SignalSubscriber.call. exec_unfold.
  destruct NDEBUG; simpl;
    [|destruct (SignalSubscriber.empty interfaceName); simpl; [reflexivity|]];
    destruct (registerSignalHandler interfaceName signalName (peer w)) as [[[]|x|] p];
    simpl; auto.
Qed.

End SignalSubscriberMore.

(** *** Asynchronous property accessors *)

Section AsyncPropertyMore.
Context `{build : Build} `{messages : MessageApi}
        `{proxy : !IProxy} `{declarations : Declarations} `{packs : !Packs}.





End AsyncPropertyMore.

(** *** Runs on the instance *)

#[local] Existing Instance Model.messages.
#[local] Existing Instance Model.object.
#[local] Existing Instance Model.proxy.
#[local] Existing Instance Model.declarations.
#[local] Existing Instance model_packs.

(** [proxy.callMethod("sendDataSignals").onInterface(I).withTimeout(5000).withArguments(1, 2);]
    calls once on scope exit, with the arguments and the timeout, and ends
    as the call ends. *)
Lemma fire_and_forget_sendDataSignals :
  MethodInvoker.call_statement (build := debug) "sendDataSignals"
    [MethodInvoker.OnInterface "org.sdbuscpp.perftests";
     MethodInvoker.WithTimeout 5000;
     MethodInvoker.WithArguments [Model.VInt32 1; Model.VInt32 2]]
    (Model.fresh tt)
  = (Normal tt,
     {| uncaught_exceptions := 0;
        peer := tt;
        calls := [({| Model.valid := true;
                      Model.interface := "org.sdbuscpp.perftests";
                      Model.member := "sendDataSignals";
                      Model.payload := [Model.VInt32 1; Model.VInt32 2];
                      Model.no_reply := false |}, 5000)] |}).
Proof.
  exact (proj1 (proj2
           (MethodInvoker_fire_and_forget (build := debug) "sendDataSignals"
              [MethodInvoker.OnInterface "org.sdbuscpp.perftests";
               MethodInvoker.WithTimeout 5000;
               MethodInvoker.WithArguments [Model.VInt32 1; Model.VInt32 2]]
              (Model.fresh tt) eq_refl))).
Defined.

(** [withTimeout(std::chrono::seconds(5))] is [withTimeout(5000000)]. *)
Lemma withTimeout_five_seconds :
  MethodInvoker.withTimeout_duration
    {| chrono.rep := chrono.int64_t; chrono.count := 5;
       chrono.period_num := 1; chrono.period_den := 1 |}
    (Model.fresh tt, MethodInvoker.ctor "sendDataSignals" (Model.fresh tt))
  = MethodInvoker.withTimeout (5 * 1000000)
      (Model.fresh tt, MethodInvoker.ctor "sendDataSignals" (Model.fresh tt)).
Proof.
  assert (Hrange : chrono.in_int64 (5 * 1000000))
    by (vm_compute; split; [discriminate | reflexivity]).
  exact (proj1
           (withTimeout_duration_of_whole_microseconds
              {| chrono.rep := chrono.int64_t; chrono.count := 5;
                 chrono.period_num := 1; chrono.period_den := 1 |}
              1000000 eq_refl ltac:(simpl; lia) Hrange)
           (Model.fresh tt, MethodInvoker.ctor "sendDataSignals" (Model.fresh tt))).
Defined.

(** [proxy.getProperty("state").onInterface(I)] against the proxy of the
    instance, which replies with the arguments of the call: the first of
    them, a string, is not read into the default value of the instance. *)
Example getProperty_on_the_instance :
  PropertyGetter.onInterface (build := debug) "org.sdbuscpp.perftests"
    (PropertyGetter.ctor "state") (Model.fresh tt)
  = (Thrown (SdbusError Model.deserialization_failure),
     {| uncaught_exceptions := 0;
        peer := tt;
        calls := [({| Model.valid := true;
                      Model.interface := "org.freedesktop.DBus.Properties";
                      Model.member := "Get";
                      Model.payload := [Model.VString "org.sdbuscpp.perftests";
                                        Model.VString "state"];
                      Model.no_reply := false |}, 0)] |}).
Proof. reflexivity. Qed.

(** [proxy.getProperty("state").onInterface(I)] against an object that
    answers with the integer 7: one call of [Get], and the value 7. *)
Lemma getProperty_answered_on_the_instance :
  exists (method : Model.message) (p : unit) (reply : Model.message) (p' : unit),
    createMethodCall (IProxy := answering (Model.incoming [Model.VInt32 7]))
      "org.freedesktop.DBus.Properties" "Get" tt
    = (Normal method, p)
    /\ snd (serialize_pack method
              [Model.VString "org.sdbuscpp.perftests"; Model.VString "state"]) = None
    /\ calls (snd (PropertyGetter.onInterface (build := debug)
                     (proxy := answering (Model.incoming [Model.VInt32 7]))
                     "org.sdbuscpp.perftests" (PropertyGetter.ctor "state")
                     (Model.fresh tt)))
      = [] ++ [(fst (serialize_pack method
                       [Model.VString "org.sdbuscpp.perftests"; Model.VString "state"]),
                timeout_default)]
    /\ callMethod (IProxy := answering (Model.incoming [Model.VInt32 7]))
         (fst (serialize_pack method
                 [Model.VString "org.sdbuscpp.perftests"; Model.VString "state"]))
         timeout_default p
      = (Normal reply, p')
    /\ deserialize_pack reply (default_tuple [TVariant]) = ([Model.VInt32 7], None).
Proof.
  exact (proj2 (proj1
           (property_getters_call_once (build := debug)
              (proxy := answering (Model.incoming [Model.VInt32 7]))
              "state" "org.sdbuscpp.perftests" (Model.fresh tt)))).
Defined.

(** [proxy.setProperty("state").onInterface(I).toValue(7, dont_expect_reply)]
    makes one call, marked as expecting no reply. *)
Lemma setProperty_on_the_instance :
  exists set set' : Exec (MethodInvoker.world) unit,
    PropertySetter.toValue (build := debug) [Model.VInt32 7]
      (PropertySetter.onInterface "org.sdbuscpp.perftests" (PropertySetter.ctor "state"))
    = Some set
    /\ PropertySetter.toValue_dont_expect_reply (build := debug) [Model.VInt32 7]
         (PropertySetter.onInterface "org.sdbuscpp.perftests" (PropertySetter.ctor "state"))
      = Some set'
    /\ set (Model.fresh tt)
      = (Normal tt,
         {| uncaught_exceptions := 0;
            peer := tt;
            calls := [] ++ [({| Model.valid := true;
                                Model.interface := "org.freedesktop.DBus.Properties";
                                Model.member := "Set";
                                Model.payload := [Model.VString "org.sdbuscpp.perftests";
                                                  Model.VString "state"; Model.VInt32 7];
                                Model.no_reply := false |}, timeout_default)] |})
    /\ set' (Model.fresh tt)
      = (Normal tt,
         {| uncaught_exceptions := 0;
            peer := tt;
            calls := [] ++ [({| Model.valid := true;
                                Model.interface := "org.freedesktop.DBus.Properties";
                                Model.member := "Set";
                                Model.payload := [Model.VString "org.sdbuscpp.perftests";
                                                  Model.VString "state"; Model.VInt32 7];
                                Model.no_reply := true |}, timeout_default)] |}).
Proof.
  exact (proj2
           (PropertySetter_toValue_calls_Set_once (build := debug) "state" [Model.VInt32 7])
           "org.sdbuscpp.perftests"%string (Model.fresh tt)
           (Model.create "org.freedesktop.DBus.Properties" "Set")
           {| Model.valid := true;
              Model.interface := "org.freedesktop.DBus.Properties";
              Model.member := "Set";
              Model.payload := [Model.VString "org.sdbuscpp.perftests";
                                Model.VString "state"; Model.VInt32 7];
              Model.no_reply := false |}
           tt eq_refl eq_refl eq_refl eq_refl).
Defined.

(** [proxy.getPropertyAsync("state").onInterface(I).getResultAsFuture()]
    on the instance: one asynchronous call of [Get], and a
    [std::future<Variant>]. *)
Example getPropertyAsync_on_the_instance :
  exists get,
    AsyncPropertyGetter.getResultAsFuture (build := debug)
      (AsyncPropertyGetter.onInterface "org.sdbuscpp.perftests"
         (AsyncPropertyGetter.ctor "state"))
    = Some get
    /\ calls (snd (get (Model.fresh tt)))
      = [({| Model.valid := true;
             Model.interface := "org.freedesktop.DBus.Properties";
             Model.member := "Get";
             Model.payload := [Model.VString "org.sdbuscpp.perftests";
                               Model.VString "state"];
             Model.no_reply := false |}, 0)]
    /\ match fst (get (Model.fresh tt)) with
       | Normal (future, _) => future = RType TVariant
       | _ => False
       end.
Proof. eexists. split; [reflexivity|]. split; reflexivity. Qed.

(** [emitDataSignal("x")] on the instance emits the signal once. *)
Example emitDataSignal_on_the_instance :
  perftests_adaptor.emitDataSignal (build := debug) "x" (Model.fresh [])
  = (Normal tt,
     {| uncaught_exceptions := 0;
        peer := [Model.incoming [Model.VString "x"]];
        calls := [Model.incoming [Model.VString "x"]] |}).
Proof. reflexivity. Qed.

End BuilderMore.

(** ** Signal handlers with an error parameter *)

Module HandlerMore.
Import TypeTraits Runtime Api ExecTactics HandlerFacts.

Section HandlerMore.
Context `{messages : MessageApi} {U : Type}.

(** X16. The signal handler [SignalSubscriber::call] registers for a
    callback with a leading error parameter calls the callback exactly once
    per signal and ends as that call ends: with no error and the values read
    when the read succeeds, with the error of the read and the tuple as the
    read left it when the read throws.  The error of the read never leaves
    the handler.  It is what the reply handler of [uponReplyInvoke] does
    with a reply that carries no error. *)
Theorem error_signal_handler_invokes_callback_once (args : list cxx_type)
    (body : option Error -> Values -> Exec U unit) (signal : Message) (d : Dispatch U) :
  let '(read, failure) :=
    deserialize_pack signal (default_arguments (FunctionWithError args)) in
  let after := signalHandler (ErrorCallback args body) signal d in
  invocations (snd after) = invocations d ++ [Invoked failure read]
  /\ fst after = fst (body failure read (user d))
  /\ user (snd after) = snd (body failure read (user d))
  /\ after = asyncReplyHandler args body signal None d.
Proof.
  rewrite error_signal_handler_run, asyncReplyHandler_run.
  unfold default_arguments. simpl function_arguments.
  destruct (deserialize_pack signal (default_tuple (List.map decay args)))
    as [read failure].
  destruct (body failure read (user d)) as [r u]. simpl. auto.
Qed.

End HandlerMore.

End HandlerMore.
